(** * The generation-session state machine of the AI website builder

    A shallow embedding of the client-side generation store
    ([store/slices/generationSlice.ts]), of the way it awaits the
    request/response calls of [services/api.ts], and of the native
    WebSocket channel ([services/websocket-native.ts]), followed by the
    properties of the session life cycle.

    Conventions.
    - A JavaScript value that reaches the store from the network is a
      [jsval]; numbers are IEEE 754 doubles ([PrimFloat.float]).  The
      TypeScript annotations are erased at run time, so a field such as
      [progress] holds whatever the frame carried.
    - [new Date()] reads a clock: a handler receives a [Clock], whose
      [k]-th reading is the result of the [k]-th [new Date()] evaluated by
      that handler.
    - zustand's [set] merges the given keys into the store; the generation
      slice only ever writes its own four keys, so the store is the record
      of those four.  The response interceptor of [api.ts] writes the
      [auth] key only.
    - The address of the socket (built from [VITE_WS_URL]) and the
      arguments of the console calls are left out. *)

From Stdlib Require Import ZArith List String Bool Lia.
From Stdlib Require Import Floats.
Import ListNotations.
Open Scope string_scope.
Open Scope list_scope.
Set Warnings "-register-all".

(** ** JavaScript values *)

Module JS.

Inductive jsval : Type :=
| JUndefined
| JNull
| JBool (b : bool)
| JNum (x : float)
| JStr (s : string)
| JArr (items : list jsval)
| JObj (fields : list (string * jsval)).

(** ToBoolean: [undefined], [null], [false], [+0], [-0], [NaN] and the
    empty string are falsy, everything else (every object and array
    included) is truthy. *)
Definition truthy (v : jsval) : bool :=
  match v with
  | JUndefined | JNull => false
  | JBool b => b
  | JNum x => negb (PrimFloat.is_zero x || PrimFloat.is_nan x)
  | JStr s => negb (String.eqb s "")
  | JArr _ | JObj _ => true
  end.

(** [a || b] *)
Definition or_else (a b : jsval) : jsval := if truthy a then a else b.

Fixpoint lookup (k : string) (fields : list (string * jsval)) : jsval :=
  match fields with
  | [] => JUndefined
  | (k', v) :: rest => if String.eqb k k' then v else lookup k rest
  end.

(** [v.k] on a value that is neither [undefined] nor [null], for the
    keys the program reads ([type], [progress], [detail], ...): none of
    them is a built-in property of a primitive or of an array, so only
    an object can hold it. *)
Definition prop (v : jsval) (k : string) : jsval :=
  match v with
  | JObj fields => lookup k fields
  | _ => JUndefined
  end.

(** [v.k], which throws a TypeError on [undefined] and [null]. *)
Definition get (v : jsval) (k : string) : option jsval :=
  match v with
  | JUndefined | JNull => None
  | _ => Some (prop v k)
  end.

(** [v?.k] *)
Definition opt_get (v : jsval) (k : string) : jsval :=
  match v with
  | JUndefined | JNull => JUndefined
  | _ => prop v k
  end.

(** [s === v] for a string [s]. *)
Definition str_strict_eq (s : string) (v : jsval) : bool :=
  match v with
  | JStr s' => String.eqb s s'
  | _ => false
  end.

Definition has_field (k : string) (v : jsval) : bool :=
  match v with
  | JObj fields => existsb (fun kv => String.eqb k (fst kv)) fields
  | _ => false
  end.

(** A [Date]: a clock reading, or [new Date(v)] for a received value. *)
Inductive Date : Type :=
| DateAt (ms : Z)
| DateOf (v : jsval).

Definition Clock : Type := nat -> Z.

(** The [k]-th [new Date()] of a handler. *)
Definition new_Date (clock : Clock) (k : nat) : Date := DateAt (clock k).

(** A string the program computes: a concatenation of literal text and
    of numbers in their decimal form, which is left as it is. *)
Inductive piece : Type :=
| Chars (s : string)
| NumberToString (x : float).

Definition jsstring : Type := list piece.

(** ToString on a value made by [JSON.parse]; [None] when it throws a
    TypeError.  An array is joined with commas, [null] and [undefined]
    elements giving the empty string.  An object is converted by
    [Object.prototype.toString] unless a key [toString] of its own hides
    that method: the key holds data, not a function, and the inherited
    [valueOf] returns the object itself, so the conversion throws. *)
Fixpoint ToString (v : jsval) : option jsstring :=
  match v with
  | JUndefined => Some [Chars "undefined"]
  | JNull => Some [Chars "null"]
  | JBool b => Some [Chars (if b then "true" else "false")]
  | JNum x => Some [NumberToString x]
  | JStr s => Some [Chars s]
  | JArr items =>
      (fix join (l : list jsval) : option jsstring :=
         match l with
         | [] => Some []
         | x :: rest =>
             match
               match x with
               | JUndefined | JNull => Some []
               | _ => ToString x
               end
             with
             | None => None
             | Some first =>
                 match rest with
                 | [] => Some first
                 | _ :: _ =>
                     match join rest with
                     | None => None
                     | Some others => Some (first ++ Chars "," :: others)
                     end
                 end
             end
         end) items
  | JObj fields =>
      if existsb (fun kv => String.eqb (fst kv) "toString") fields
      then None
      else Some [Chars "[object Object]"]
  end.

End JS.
Import JS.


Definition zero : jsval := JNum 0%float.
Definition hundred : jsval := JNum 100%float.

(** ** Data model ([types/generation.ts]) *)

Inductive Status : Type := pending | in_progress | completed | failed.

Definition is_terminal (st : Status) : bool :=
  match st with
  | completed | failed => true
  | pending | in_progress => false
  end.

Record ContactInfo : Type := {
  email : option string;
  phone : option string;
  address : option string
}.

Record BusinessData : Type := {
  businessName : string;
  businessDescription : string;
  businessCategory : string;
  targetAudience : string;
  websitePurpose : string;
  contactInfo : option ContactInfo;
  additionalInfo : option string
}.

Module GenerationStep.
Record t : Type := mk {
  id : string;
  name : string;
  status : Status;
  progress : jsval;
  startedAt : option Date;
  completedAt : option Date;
  error : option string
}.
End GenerationStep.

Module GenerationProgress.
Record t : Type := mk {
  generationId : jsval;
  progress : jsval;
  step : jsval;
  stepProgress : jsval;
  message : jsval;
  timestamp : Date
}.
End GenerationProgress.

Module GenerationError.
Record t : Type := mk {
  message : jsval;
  code : jsval;
  details : jsval
}.
End GenerationError.

Module GenerationState.
Record t : Type := mk {
  id : jsval;
  status : Status;
  progress : jsval;
  startedAt : Date;
  completedAt : option Date;
  businessData : BusinessData;
  steps : list GenerationStep.t;
  result : option jsval;
  error : option GenerationError.t
}.
End GenerationState.

(** ** The generation slice of the store *)

Record GenerationSlice : Type := {
  currentGeneration : option GenerationState.t;
  generationHistory : list GenerationState.t;
  isGenerating : bool;
  wsConnected : bool
}.

(** What a handler leaves behind besides the store. *)
Inductive Effect : Type :=
| ConsoleLog (text : string)
| ConsoleDebug (text : string)
| ConsoleWarn (text : string)
| ConsoleError (text : string)
| SetTimeout (delay : Z)
| SetInterval (timer : nat) (period : Z)
| ClearInterval (timer : nat)
| SocketClose
| SocketSend (frame : jsval)
| ApiDelete (generation : jsval).

(** [array.map(f)] where [f] reads the clock: element [j] sees the
    reading [k + j]. *)
Fixpoint map_from {A B : Type} (f : nat -> A -> B) (k : nat) (l : list A)
  : list B :=
  match l with
  | [] => []
  | a :: rest => f k a :: map_from f (S k) rest
  end.

Module Store.

Definition initial : GenerationSlice :=
  {| currentGeneration := None;
     generationHistory := [];
     isGenerating := false;
     wsConnected := false |}.

(** [set({ ... })] for each key the slice writes. *)
Definition set_currentGeneration (g : option GenerationState.t)
    (s : GenerationSlice) : GenerationSlice :=
  {| currentGeneration := g;
     generationHistory := generationHistory s;
     isGenerating := isGenerating s;
     wsConnected := wsConnected s |}.

Definition set_isGenerating (b : bool) (s : GenerationSlice)
  : GenerationSlice :=
  {| currentGeneration := currentGeneration s;
     generationHistory := generationHistory s;
     isGenerating := b;
     wsConnected := wsConnected s |}.

Definition setWsConnected (connected : bool) (s : GenerationSlice)
  : GenerationSlice :=
  {| currentGeneration := currentGeneration s;
     generationHistory := generationHistory s;
     isGenerating := isGenerating s;
     wsConnected := connected |}.

Definition initial_steps : list GenerationStep.t :=
  [ GenerationStep.mk "content" "Content Generation" pending zero
      None None None;
    GenerationStep.mk "design" "Design System" pending zero
      None None None;
    GenerationStep.mk "structure" "Website Structure" pending zero
      None None None;
    GenerationStep.mk "quality" "Quality Check" pending zero
      None None None ].

(** How [await generationApi.startGeneration(businessData)] ends. *)
Inductive ApiOutcome : Type :=
| Resolved (response : jsval)
| Rejected (apiError : jsval).

(** How the promise of [startGeneration] settles: fulfilled, rejected
    with the [Error] built in the inner [catch], or rejected with the
    TypeError thrown while that [Error] was being built. *)
Inductive Settled : Type :=
| Fulfilled
| Error (message : jsstring)
| TypeErrorThrown.

(** The TypeError of a property read on [undefined] or [null]: an
    object with no [response] field. *)
Definition TypeError : jsval := JObj [("name", JStr "TypeError")].

Definition generic_message : jsval :=
  JStr "Failed to start website generation".

(** [apiError?.response?.data?.detail || 'Failed to start website
    generation'] *)
Definition errorMessage (apiError : jsval) : jsval :=
  or_else (opt_get (opt_get (opt_get apiError "response") "data") "detail")
          generic_message.

(** [startGeneration] up to its [await]. *)
Definition startGeneration_begin (s : GenerationSlice) : GenerationSlice :=
  set_isGenerating true s.

Definition newGeneration (clock : Clock) (generationId : jsval)
    (businessData : BusinessData) : GenerationState.t :=
  GenerationState.mk generationId in_progress zero (new_Date clock 0)
    None businessData initial_steps None None.

Definition generic_text : jsstring :=
  [Chars "Failed to start website generation"].

(** [new Error(errorMessage)] converts its argument to a string, and
    throws if that conversion does. *)
Definition new_Error (arg : jsval) : Settled :=
  match ToString arg with
  | Some message => Error message
  | None => TypeErrorThrown
  end.

(** The inner [catch] followed by the outer one, which rethrows whatever
    the inner one threw. *)
Definition startGeneration_catch (apiError : jsval) (s : GenerationSlice)
  : GenerationSlice * Settled :=
  (set_isGenerating false s, new_Error (errorMessage apiError)).

(** [startGeneration] from the point where the awaited call settles;
    [uuid] is what [uuidv4()] returns if it is called. *)
Definition startGeneration_resume (clock : Clock) (uuid : string)
    (businessData : BusinessData) (outcome : ApiOutcome)
    (s : GenerationSlice) : GenerationSlice * Settled :=
  match outcome with
  | Resolved response =>
      match get response "generation_id" with
      | Some v =>
          let generationId := or_else v (JStr uuid) in
          (set_currentGeneration
             (Some (newGeneration clock generationId businessData)) s,
           Fulfilled)
      | None => startGeneration_catch TypeError s
      end
  | Rejected apiError => startGeneration_catch apiError s
  end.

(** The whole call, when nothing else touches the store while it
    waits. *)
Definition startGeneration (clock : Clock) (uuid : string)
    (businessData : BusinessData) (outcome : ApiOutcome)
    (s : GenerationSlice) : GenerationSlice * Settled :=
  startGeneration_resume clock uuid businessData outcome
    (startGeneration_begin s).

Definition update_step (p : GenerationProgress.t) (step : GenerationStep.t)
  : GenerationStep.t :=
  if str_strict_eq (GenerationStep.id step) (GenerationProgress.step p)
  then GenerationStep.mk (GenerationStep.id step) (GenerationStep.name step)
         in_progress (GenerationProgress.stepProgress p)
         (GenerationStep.startedAt step) (GenerationStep.completedAt step)
         (GenerationStep.error step)
  else step.

Definition updateProgress (p : GenerationProgress.t) (s : GenerationSlice)
  : GenerationSlice :=
  match currentGeneration s with
  | None => s
  | Some current =>
      let updatedGeneration :=
        GenerationState.mk
          (GenerationState.id current)
          (GenerationState.status current)
          (GenerationProgress.progress p)
          (GenerationState.startedAt current)
          (GenerationState.completedAt current)
          (GenerationState.businessData current)
          (map (update_step p) (GenerationState.steps current))
          (GenerationState.result current)
          (GenerationState.error current) in
      set_currentGeneration (Some updatedGeneration) s
  end.

Definition complete_step (clock : Clock) (k : nat) (step : GenerationStep.t)
  : GenerationStep.t :=
  GenerationStep.mk (GenerationStep.id step) (GenerationStep.name step)
    completed hundred (GenerationStep.startedAt step)
    (Some (new_Date clock k)) (GenerationStep.error step).

(** The object literal reads the clock once for the session and then
    once per step. *)
Definition completedGeneration (clock : Clock) (result : jsval)
    (current : GenerationState.t) : GenerationState.t :=
  GenerationState.mk
    (GenerationState.id current)
    completed
    hundred
    (GenerationState.startedAt current)
    (Some (new_Date clock 0))
    (GenerationState.businessData current)
    (map_from (complete_step clock) 1 (GenerationState.steps current))
    (Some result)
    (GenerationState.error current).

Definition completeGeneration (clock : Clock) (result : jsval)
    (s : GenerationSlice) : GenerationSlice :=
  match currentGeneration s with
  | None => s
  | Some current =>
      let done := completedGeneration clock result current in
      {| currentGeneration := Some done;
         generationHistory := done :: generationHistory s;
         isGenerating := false;
         wsConnected := wsConnected s |}
  end.

Definition failedGeneration (clock : Clock) (error : GenerationError.t)
    (current : GenerationState.t) : GenerationState.t :=
  GenerationState.mk
    (GenerationState.id current)
    failed
    (GenerationState.progress current)
    (GenerationState.startedAt current)
    (Some (new_Date clock 0))
    (GenerationState.businessData current)
    (GenerationState.steps current)
    (GenerationState.result current)
    (Some error).

Definition failGeneration (clock : Clock) (error : GenerationError.t)
    (s : GenerationSlice) : GenerationSlice :=
  match currentGeneration s with
  | None => s
  | Some current =>
      {| currentGeneration := Some (failedGeneration clock error current);
         generationHistory := generationHistory s;
         isGenerating := false;
         wsConnected := wsConnected s |}
  end.

(** [cancelGeneration]: the DELETE request is fired and not awaited. *)
Definition cancelGeneration (s : GenerationSlice)
  : GenerationSlice * list Effect :=
  match currentGeneration s with
  | None => (s, [])
  | Some current =>
      ({| currentGeneration := None;
          generationHistory := generationHistory s;
          isGenerating := false;
          wsConnected := wsConnected s |},
       [ApiDelete (GenerationState.id current)])
  end.

(** The [.catch] handler of that request: it logs and returns. *)
Definition cancelGeneration_catch (error : jsval) (s : GenerationSlice)
  : GenerationSlice * list Effect :=
  (s, [ConsoleError "Failed to cancel generation:"]).

(** How the DELETE request ends. *)
Inductive CancelOutcome : Type :=
| CancelResolved (response : jsval)
| CancelRejected (error : jsval).

Definition cancelGeneration_settle (outcome : CancelOutcome)
    (s : GenerationSlice) : GenerationSlice * list Effect :=
  match outcome with
  | CancelResolved _ => (s, [])
  | CancelRejected error => cancelGeneration_catch error s
  end.

(** A call of [cancelGeneration] followed by the settling of its
    request. *)
Definition cancelGeneration_run (outcome : CancelOutcome)
    (s : GenerationSlice) : GenerationSlice * list Effect :=
  let '(s1, fired) := cancelGeneration s in
  match fired with
  | [] => (s1, [])
  | _ :: _ =>
      let '(s2, logged) := cancelGeneration_settle outcome s1 in
      (s2, fired ++ logged)
  end.

Definition clearCurrentGeneration (s : GenerationSlice) : GenerationSlice :=
  {| currentGeneration := None;
     generationHistory := generationHistory s;
     isGenerating := false;
     wsConnected := wsConnected s |}.

End Store.

(** ** The native WebSocket channel ([services/websocket-native.ts]) *)

Module Native.

Local Open Scope Z_scope.

Inductive ReadyState : Type := CONNECTING | OPEN | CLOSING | CLOSED.

(** The fields of the service object. [maxReconnectAttempts] and
    [reconnectInterval] are initialised once and never written. The
    socket is kept as its [readyState]; its address plays no part in the
    handlers. *)
Record Service : Type := {
  socket : option ReadyState;
  reconnectAttempts : Z;
  generationId : option string;
  pingInterval : option nat
}.

Definition maxReconnectAttempts : Z := 5.
Definition reconnectInterval : Z := 1000.

Definition fresh : Service :=
  {| socket := None;
     reconnectAttempts := 0;
     generationId := None;
     pingInterval := None |}.

(** The service object together with [useAppStore.getState()]. *)
Record World : Type := {
  service : Service;
  store : GenerationSlice
}.

(** A handler reads and writes the world and leaves effects behind. *)
Definition M (A : Type) : Type := World -> A * World * list Effect.

Definition ret {A : Type} (a : A) : M A := fun w => (a, w, []).

Definition bind {A B : Type} (m : M A) (k : A -> M B) : M B :=
  fun w =>
    match m w with
    | (a, w1, e1) =>
        match k a w1 with
        | (b, w2, e2) => (b, w2, e1 ++ e2)
        end
    end.

Notation "x <- m ;; k" := (bind m (fun x => k))
  (at level 61, m at next level, right associativity).
Notation "m ;; k" := (bind m (fun _ => k))
  (at level 61, right associativity).

Definition this : M Service := fun w => (service w, w, []).

Definition emit (e : Effect) : M unit := fun w => (tt, w, [e]).

Definition on_store (f : GenerationSlice -> GenerationSlice) : M unit :=
  fun w => (tt, {| service := service w; store := f (store w) |}, []).

Definition set_socket (v : option ReadyState) : M unit :=
  fun w =>
    (tt,
     {| service :=
          {| socket := v;
             reconnectAttempts := reconnectAttempts (service w);
             generationId := generationId (service w);
             pingInterval := pingInterval (service w) |};
        store := store w |},
     []).

Definition set_reconnectAttempts (v : Z) : M unit :=
  fun w =>
    (tt,
     {| service :=
          {| socket := socket (service w);
             reconnectAttempts := v;
             generationId := generationId (service w);
             pingInterval := pingInterval (service w) |};
        store := store w |},
     []).

Definition set_generationId (v : option string) : M unit :=
  fun w =>
    (tt,
     {| service :=
          {| socket := socket (service w);
             reconnectAttempts := reconnectAttempts (service w);
             generationId := v;
             pingInterval := pingInterval (service w) |};
        store := store w |},
     []).

Definition set_pingInterval (v : option nat) : M unit :=
  fun w =>
    (tt,
     {| service :=
          {| socket := socket (service w);
             reconnectAttempts := reconnectAttempts (service w);
             generationId := generationId (service w);
             pingInterval := v |};
        store := store w |},
     []).

(** [if (this.pingInterval !== null) { clearInterval; ... = null }] *)
Definition clear_ping : M unit :=
  svc <- this ;;
  match pingInterval svc with
  | Some timer => emit (ClearInterval timer) ;; set_pingInterval None
  | None => ret tt
  end.

Definition CONNECTION_LOST : GenerationError.t :=
  GenerationError.mk
    (JStr "Connection to the server lost")
    (JStr "CONNECTION_LOST")
    (JStr "Unable to reconnect to the server after multiple attempts").

(** [Math.pow(2, n)] on the counter, which is never negative. *)
Definition handleReconnect (clock : Clock) : M unit :=
  clear_ping ;;
  svc <- this ;;
  if reconnectAttempts svc <? maxReconnectAttempts then
    set_reconnectAttempts (reconnectAttempts svc + 1) ;;
    svc <- this ;;
    let delay := reconnectInterval * 2 ^ (reconnectAttempts svc - 1) in
    emit (ConsoleLog "Attempting to reconnect") ;;
    emit (SetTimeout delay)
  else
    emit (ConsoleError "Max reconnection attempts reached") ;;
    on_store (Store.failGeneration clock CONNECTION_LOST).

Definition disconnect : M unit :=
  clear_ping ;;
  svc <- this ;;
  match socket svc with
  | Some state =>
      match state with
      | OPEN | CONNECTING => emit SocketClose
      | CLOSING | CLOSED => ret tt
      end ;;
      set_socket None ;;
      on_store (Store.setWsConnected false)
  | None => ret tt
  end.

(** What the environment decides when [connect] runs: whether
    [new WebSocket(wsUrl)] returns or throws, and the handle that
    [setInterval] returns. *)
Record ConnectEnv : Type := {
  constructed : bool;
  timer : nat
}.

Definition connect (clock : Clock) (env : ConnectEnv) (id : string)
  : M unit :=
  set_generationId (Some id) ;;
  emit (ConsoleLog "Connecting to WebSocket") ;;
  disconnect ;;
  if constructed env then
    set_socket (Some CONNECTING) ;;
    emit (SetInterval (timer env) 30000) ;;
    set_pingInterval (Some (timer env))
  else
    emit (ConsoleError "Failed to connect to WebSocket:") ;;
    handleReconnect clock.

(** The callback handed to [setTimeout] by [handleReconnect]. *)
Definition reconnect_callback (clock : Clock) (env : ConnectEnv) : M unit :=
  emit (ConsoleLog "Reconnecting...") ;;
  svc <- this ;;
  match generationId svc with
  | Some id => if String.eqb id "" then ret tt else connect clock env id
  | None => ret tt
  end.

Definition sendMessage (data : jsval) : M unit :=
  svc <- this ;;
  match socket svc with
  | Some OPEN => emit (SocketSend data)
  | _ =>
      emit
        (ConsoleWarn "Attempted to send message but WebSocket is not open")
  end.

Definition sendPing : M unit := sendMessage (JObj [("type", JStr "ping")]).

(** The browser moves the socket to [OPEN] before it calls [onopen], and
    to [CLOSED] before it calls [onclose]. *)
Definition browser_sets (state : ReadyState) : M unit :=
  svc <- this ;;
  match socket svc with
  | Some _ => set_socket (Some state)
  | None => ret tt
  end.

Definition onopen : M unit :=
  browser_sets OPEN ;;
  emit (ConsoleLog "WebSocket connected") ;;
  on_store (Store.setWsConnected true) ;;
  set_reconnectAttempts 0.

Definition onclose (clock : Clock) : M unit :=
  browser_sets CLOSED ;;
  emit (ConsoleLog "WebSocket closed") ;;
  on_store (Store.setWsConnected false) ;;
  handleReconnect clock.

Definition onerror : M unit := emit (ConsoleError "WebSocket error:").

(** [this.generationId] as a value. *)
Definition this_generationId (svc : Service) : jsval :=
  match generationId svc with
  | Some id => JStr id
  | None => JNull
  end.

Definition decode_progress (clock : Clock) (svc : Service) (data : jsval)
  : GenerationProgress.t :=
  GenerationProgress.mk
    (or_else (prop data "generation_id")
             (or_else (this_generationId svc) (JStr "")))
    (or_else (prop data "progress") zero)
    (or_else (prop data "step") (JStr "Unknown"))
    (or_else (prop data "step_progress")
             (or_else (prop data "progress") zero))
    (or_else (prop data "message") (JStr ""))
    (if truthy (prop data "timestamp")
     then DateOf (prop data "timestamp")
     else new_Date clock 0).

Definition decode_complete (svc : Service) (data : jsval) : jsval :=
  JObj [ ("generationId",
          or_else (prop data "generation_id")
                  (or_else (this_generationId svc) (JStr "")));
         ("websiteData", or_else (prop data "final_website") (JObj []));
         ("qualityScore", or_else (prop data "quality_score") zero) ].

Definition decode_error (data : jsval) : GenerationError.t :=
  GenerationError.mk
    (or_else (prop data "message") (JStr "Unknown error"))
    (or_else (prop data "code") (JStr "ERROR"))
    (or_else (prop data "details") (JStr "")).

Definition parse_failure : M unit :=
  emit (ConsoleError "Error parsing WebSocket message:").

(** [onmessage]; [parsed] is what [JSON.parse(event.data)] returns, [None]
    when it throws. *)
Definition onmessage (clock : Clock) (parsed : option jsval) : M unit :=
  match parsed with
  | None => parse_failure
  | Some data =>
      emit (ConsoleLog "WebSocket message received:") ;;
      match get data "type" with
      | None => parse_failure
      | Some type =>
          svc <- this ;;
          if str_strict_eq "connection" type then ret tt
          else if str_strict_eq "progress_update" type then
            on_store (Store.updateProgress (decode_progress clock svc data))
          else if str_strict_eq "generation_complete" type then
            on_store
              (Store.completeGeneration clock (decode_complete svc data))
          else if str_strict_eq "error" type then
            on_store (Store.failGeneration clock (decode_error data))
          else if str_strict_eq "pong" type then
            emit (ConsoleDebug "Received pong from server")
          else emit (ConsoleLog "Unhandled WebSocket message type")
      end
  end.

(** What can happen to the channel. *)
Inductive Event : Type :=
| Connect (id : string) (env : ConnectEnv)
| Disconnect
| Opened
| Closed
| Errored
| Message (parsed : option jsval)
| ReconnectTimer (env : ConnectEnv)
| PingTimer.

Definition handle (clock : Clock) (ev : Event) : M unit :=
  match ev with
  | Connect id env => connect clock env id
  | Disconnect => disconnect
  | Opened => onopen
  | Closed => onclose clock
  | Errored => onerror
  | Message parsed => onmessage clock parsed
  | ReconnectTimer env => reconnect_callback clock env
  | PingTimer => sendPing
  end.

Definition world_of {A : Type} (r : A * World * list Effect) : World :=
  snd (fst r).

Definition effects_of {A : Type} (r : A * World * list Effect)
  : list Effect :=
  snd r.

Fixpoint timeouts (effects : list Effect) : list Z :=
  match effects with
  | [] => []
  | SetTimeout delay :: rest => delay :: timeouts rest
  | _ :: rest => timeouts rest
  end.

(** One failed reconnect attempt: the socket closes and, when the
    timeout that [handleReconnect] set expires, its callback runs. *)
Definition failed_attempt (clock : Clock) (env : ConnectEnv) (w : World)
  : World :=
  world_of (reconnect_callback clock env (world_of (onclose clock w))).

(** [n] failed attempts in a row; the [k]-th one runs under [clock k]
    and [env k]. *)
Fixpoint after_failures (clock : nat -> Clock) (env : nat -> ConnectEnv)
    (n : nat) (w : World) : World :=
  match n with
  | O => w
  | S k => failed_attempt (clock n) (env n) (after_failures clock env k w)
  end.

Fixpoint errors_logged (effects : list Effect) : list string :=
  match effects with
  | [] => []
  | ConsoleError text :: rest => text :: errors_logged rest
  | _ :: rest => errors_logged rest
  end.

End Native.

(** ** Sequences of store operations *)

Module Run.

(** The events the channel folds into the store. *)
Inductive Inbound : Type :=
| Progress (p : GenerationProgress.t)
| Completion (result : jsval)
| Failure (error : GenerationError.t).

Definition apply (clock : Clock) (ev : Inbound) (s : GenerationSlice)
  : GenerationSlice :=
  match ev with
  | Progress p => Store.updateProgress p s
  | Completion result => Store.completeGeneration clock result s
  | Failure error => Store.failGeneration clock error s
  end.

Fixpoint apply_all (evs : list (Clock * Inbound)) (s : GenerationSlice)
  : GenerationSlice :=
  match evs with
  | [] => s
  | (clock, ev) :: rest => apply_all rest (apply clock ev s)
  end.

Fixpoint update_all (ps : list GenerationProgress.t) (s : GenerationSlice)
  : GenerationSlice :=
  match ps with
  | [] => s
  | p :: rest => update_all rest (Store.updateProgress p s)
  end.

Definition step_completed (st : GenerationStep.t) : Prop :=
  GenerationStep.status st = completed /\
  GenerationStep.progress st = hundred.

Definition is_progress (ev : Clock * Inbound) : bool :=
  match snd ev with
  | Progress _ => true
  | _ => false
  end.

(** Every action of the slice, with what the environment supplies to
    it.  [Start] is a call of [startGeneration] that nothing interleaves
    with; [StartBegin] and [StartResume] are its two halves, before and
    after the [await], between which other actions may run. *)
Inductive Op : Type :=
| Start (businessData : BusinessData) (outcome : Store.ApiOutcome)
        (uuid : string)
| StartBegin
| StartResume (businessData : BusinessData) (outcome : Store.ApiOutcome)
              (uuid : string)
| Update (p : GenerationProgress.t)
| Complete (result : jsval)
| Fail (error : GenerationError.t)
| Cancel (outcome : Store.CancelOutcome)
| Clear
| SetWsConnected (connected : bool).

Definition step (clock : Clock) (op : Op) (s : GenerationSlice)
  : GenerationSlice :=
  match op with
  | Start businessData outcome uuid =>
      fst (Store.startGeneration clock uuid businessData outcome s)
  | StartBegin => Store.startGeneration_begin s
  | StartResume businessData outcome uuid =>
      fst (Store.startGeneration_resume clock uuid businessData outcome s)
  | Update p => Store.updateProgress p s
  | Complete result => Store.completeGeneration clock result s
  | Fail error => Store.failGeneration clock error s
  | Cancel outcome => fst (Store.cancelGeneration_run outcome s)
  | Clear => Store.clearCurrentGeneration s
  | SetWsConnected connected => Store.setWsConnected connected s
  end.

Fixpoint run (ops : list (Clock * Op)) (s : GenerationSlice)
  : GenerationSlice :=
  match ops with
  | [] => s
  | (clock, op) :: rest => run rest (step clock op s)
  end.

Definition history_completed (s : GenerationSlice) : Prop :=
  Forall (fun g => GenerationState.status g = completed)
         (generationHistory s).

(** Every [in_progress] step of [g] is a step of [g0]. *)
Definition quiet_steps (g0 g : GenerationState.t) : Prop :=
  forall st, In st (GenerationState.steps g) ->
             GenerationStep.status st = in_progress ->
             In st (GenerationState.steps g0).

(** What the life cycle guarantees about [result] and [error]. *)
Definition settled_fields (g : GenerationState.t) : Prop :=
  match GenerationState.status g with
  | pending => False
  | in_progress =>
      GenerationState.result g = None /\ GenerationState.error g = None
  | completed => GenerationState.result g <> None
  | failed => GenerationState.error g <> None
  end.

Definition current_settled (s : GenerationSlice) : Prop :=
  forall g, currentGeneration s = Some g -> settled_fields g.

Definition is_complete (op : Op) : bool :=
  match op with
  | Complete _ => true
  | _ => false
  end.

(** The steps of [g'] that are [in_progress] without having been so in
    [g]. *)
Definition reopened (g g' : GenerationState.t) (st' : GenerationStep.t)
  : Prop :=
  In st' (GenerationState.steps g') /\
  GenerationStep.status st' = in_progress /\
  forall st, In st (GenerationState.steps g) ->
             GenerationStep.id st = GenerationStep.id st' ->
             GenerationStep.status st <> in_progress.

End Run.

(** ** Fixtures *)

Module Fixture.

Definition noon : Clock := fun k => (1700000000000 + Z.of_nat k)%Z.

Definition bakery : BusinessData :=
  {| businessName := "Crumb";
     businessDescription := "A bakery";
     businessCategory := "food";
     targetAudience := "locals";
     websitePurpose := "orders";
     contactInfo := None;
     additionalInfo := None |}.

Definition created (id : string) : jsval :=
  JObj [("generation_id", JStr id); ("status", JStr "pending")].

Definition website : jsval :=
  JObj [("websiteUrl", JStr "/sites/g1/index.html")].

Definition content_80 : GenerationProgress.t :=
  GenerationProgress.mk (JStr "g1") (JNum 40%float) (JStr "content")
    (JNum 80%float) (JStr "") (DateAt 1700000000500%Z).

Definition unknown_phase : GenerationProgress.t :=
  GenerationProgress.mk (JStr "g1") (JNum 55%float) (JStr "deploy")
    (JNum 10%float) (JStr "") (DateAt 1700000000600%Z).

Definition server_error : GenerationError.t :=
  GenerationError.mk (JStr "boom") (JStr "ERROR") (JStr "").

(** A store right after a successful start. *)
Definition started : GenerationSlice :=
  Run.run [(noon, Run.Start bakery (Store.Resolved (created "g1")) "u-1")]
    Store.initial.

(** ... and after the completion frame. *)
Definition finished : GenerationSlice :=
  Run.run [(noon, Run.Complete website)] started.

(** A second generation started while the first one sits in the
    history. *)
Definition restarted : GenerationSlice :=
  Run.run [(noon, Run.Start bakery (Store.Resolved (created "g2")) "u-2")]
    finished.

(** An axios error whose response body is [body]. *)
Definition axios_error (body : jsval) : jsval :=
  JObj [("message", JStr "Request failed with status code 422");
        ("response", JObj [("status", JNum 422%float); ("data", body)])].

Definition progress_frame : jsval :=
  JObj [("type", JStr "progress_update"); ("step", JStr "content");
        ("step_progress", JNum 80%float)].

Definition every_clock : nat -> Clock := fun _ => noon.

Definition every_env : nat -> Native.ConnectEnv :=
  fun n => {| Native.constructed := true; Native.timer := n |}.

Definition idle_service (id : string) : Native.Service :=
  {| Native.socket := Some Native.OPEN;
     Native.reconnectAttempts := 0%Z;
     Native.generationId := Some id;
     Native.pingInterval := Some 7%nat |}.

Definition streaming : Native.World :=
  {| Native.service := idle_service "g1"; Native.store := started |}.

End Fixture.

(** ** Runs of the channel, and the intervals it keeps alive *)

Module Channel.

Fixpoint run (evs : list (Clock * Native.Event)) (w : Native.World)
  : Native.World * list Effect :=
  match evs with
  | [] => (w, [])
  | (clock, ev) :: rest =>
      match Native.handle clock ev w with
      | (_, w1, e1) =>
          match run rest w1 with
          | (w2, e2) => (w2, e1 ++ e2)
          end
      end
  end.

(** [clearInterval(t)] on the set of running intervals. *)
Definition without (t : nat) (live : list nat) : list nat :=
  filter (fun x => negb (Nat.eqb x t)) live.

(** The intervals that run after the effects, given those that ran
    before. *)
Fixpoint intervals (effects : list Effect) (live : list nat) : list nat :=
  match effects with
  | [] => live
  | ClearInterval t :: rest => intervals rest (without t live)
  | SetInterval t _ :: rest => intervals rest (t :: live)
  | _ :: rest => intervals rest live
  end.

(** The interval the service remembers. *)
Definition recorded (svc : Native.Service) : list nat :=
  match Native.pingInterval svc with
  | Some t => [t]
  | None => []
  end.

Fixpoint sent (effects : list Effect) : list jsval :=
  match effects with
  | [] => []
  | SocketSend frame :: rest => frame :: sent rest
  | _ :: rest => sent rest
  end.

Fixpoint closes (effects : list Effect) : nat :=
  match effects with
  | [] => 0
  | SocketClose :: rest => S (closes rest)
  | _ :: rest => closes rest
  end.

(** The delays [handleReconnect] can ask for. *)
Definition schedule : list Z := [1000; 2000; 4000; 8000; 16000]%Z.

(** One closure after the other, with no reconnect attempt between
    them. *)
Fixpoint closures (clocks : list Clock) : list (Clock * Native.Event) :=
  match clocks with
  | [] => []
  | clock :: rest => (clock, Native.Closed) :: closures rest
  end.

(** The retry counter is within its limits. *)
Definition bounded (w : Native.World) : Prop :=
  (0 <= Native.reconnectAttempts (Native.service w) <= 5)%Z.

(** The frame types that reach the store. *)
Definition store_frame (type : jsval) : bool :=
  str_strict_eq "progress_update" type
  || str_strict_eq "generation_complete" type
  || str_strict_eq "error" type.

End Channel.

(** ** The cards of the dashboard ([pages/Dashboard.tsx]) *)

Module Dashboard.

(** [generationHistory.slice(0, 5)] *)
Definition recent (s : GenerationSlice) : list GenerationState.t :=
  firstn 5 (generationHistory s).

(** [disabled={generation.status !== 'completed'}] *)
Definition preview_disabled (g : GenerationState.t) : bool :=
  match GenerationState.status g with
  | completed => false
  | _ => true
  end.

End Dashboard.

(** ** The saved websites ([store/slices/websiteSlice.ts]) *)

Module Website.

Inductive ImageType : Type :=
  hero | background | product | team | icon | logo | other.

Module ImageAsset.
Record t : Type := mk {
  id : string;
  url : string;
  alt : string;
  type : ImageType
}.
End ImageAsset.

Module WebsiteSection.
Record t : Type := mk {
  id : string;
  type : string;
  content : jsval
}.
End WebsiteSection.

Module WebsitePage.
Record t : Type := mk {
  id : string;
  name : string;
  path : string;
  sections : list WebsiteSection.t
}.
End WebsitePage.

Module Colors.
Record t : Type := mk {
  primary : string;
  secondary : string;
  accent : string;
  background : string;
  text : string
}.
End Colors.

Module Typography.
Record t : Type := mk {
  headingFont : string;
  bodyFont : string
}.
End Typography.

Module Spacing.
Record t : Type := mk {
  base : float
}.
End Spacing.

Record DesignSystem : Type := {
  colors : Colors.t;
  typography : Typography.t;
  spacing : Spacing.t
}.

Record GenerationResult : Type := {
  websiteUrl : string;
  htmlContent : string;
  cssContent : string;
  jsContent : string;
  images : list ImageAsset.t;
  pages : list WebsitePage.t;
  designSystem : DesignSystem
}.

Record WebsiteState : Type := {
  currentWebsite : option GenerationResult;
  savedWebsites : list GenerationResult;
  currentPreviewPage : option string
}.

Definition initial : WebsiteState :=
  {| currentWebsite := None;
     savedWebsites := [];
     currentPreviewPage := None |}.

(** [website?.pages[0]?.id || null] *)
Definition first_page (website : option GenerationResult) : option string :=
  match website with
  | None => None
  | Some w =>
      match pages w with
      | [] => None
      | page :: _ =>
          if String.eqb (WebsitePage.id page) "" then None
          else Some (WebsitePage.id page)
      end
  end.

Definition setCurrentWebsite (website : option GenerationResult)
    (st : WebsiteState) : WebsiteState :=
  {| currentWebsite := website;
     savedWebsites := savedWebsites st;
     currentPreviewPage := first_page website |}.

Definition same_url (url : string) (w : GenerationResult) : bool :=
  String.eqb (websiteUrl w) url.

Definition saveWebsite (website : GenerationResult) (st : WebsiteState)
  : WebsiteState :=
  let existingWebsites := savedWebsites st in
  let exists_ := existsb (same_url (websiteUrl website)) existingWebsites in
  if negb exists_ then
    {| currentWebsite := currentWebsite st;
       savedWebsites := savedWebsites st ++ [website];
       currentPreviewPage := currentPreviewPage st |}
  else st.

Definition deleteWebsite (websiteId : string) (st : WebsiteState)
  : WebsiteState :=
  {| currentWebsite := currentWebsite st;
     savedWebsites :=
       filter (fun w => negb (same_url websiteId w)) (savedWebsites st);
     currentPreviewPage := currentPreviewPage st |}.

Definition setCurrentPreviewPage (pageId : option string)
    (st : WebsiteState) : WebsiteState :=
  {| currentWebsite := currentWebsite st;
     savedWebsites := savedWebsites st;
     currentPreviewPage := pageId |}.

Inductive Action : Type :=
| SetCurrent (website : option GenerationResult)
| Save (website : GenerationResult)
| Delete (websiteId : string)
| SetPage (pageId : option string).

Definition act (a : Action) (st : WebsiteState) : WebsiteState :=
  match a with
  | SetCurrent website => setCurrentWebsite website st
  | Save website => saveWebsite website st
  | Delete websiteId => deleteWebsite websiteId st
  | SetPage pageId => setCurrentPreviewPage pageId st
  end.

Definition acts (l : list Action) (st : WebsiteState) : WebsiteState :=
  fold_left (fun acc a => act a acc) l st.

Definition urls (st : WebsiteState) : list string :=
  map websiteUrl (savedWebsites st).

End Website.

(** ** Preview addresses ([utils/config.ts]) *)

Module Config.

Definition default_base : string := "http://localhost:8000".

(** [import.meta.env.VITE_API_BASE_URL || 'http://localhost:8000'] *)
Definition API_BASE_URL (env : option string) : string :=
  match env with
  | Some s => if String.eqb s "" then default_base else s
  | None => default_base
  end.

(** [s.startsWith('http')] *)
Definition starts_with_http (s : string) : bool := String.prefix "http" s.

Definition getFullWebsiteUrl (base : string) (relativeUrl : string)
  : string :=
  if String.eqb relativeUrl "" then ""
  else if starts_with_http relativeUrl then relativeUrl
  else String.append base relativeUrl.

End Config.

(** ** The request/response client ([services/api.ts]) and the auth
    slice ([store/slices/authSlice.ts]) *)

Module Auth.

Record User : Type := {
  id : string;
  email : string;
  name : option string
}.

Record AuthState : Type := {
  user : option User;
  token : option string;
  isLoading : bool;
  error : option string
}.

Definition initial : AuthState :=
  {| user := None; token := None; isLoading := false; error := None |}.

(** [login] and [signup] up to their [await]. *)
Definition begin (st : AuthState) : AuthState :=
  {| user := user st; token := token st; isLoading := true; error := None |}.

Definition mock_token : string := "mock-token-12345".

(** [login] after the mock promise has resolved; it never rejects, and
    the password takes no part in it. *)
Definition login_resolved (email password : string) (st : AuthState)
  : AuthState :=
  {| user := Some {| id := "1"; email := email; name := Some "Demo User" |};
     token := Some mock_token;
     isLoading := false;
     error := error st |}.

(** [name || 'New User'] *)
Definition name_or_default (name : option string) : string :=
  match name with
  | Some n => if String.eqb n "" then "New User" else n
  | None => "New User"
  end.

Definition signup_resolved (email password : string) (name : option string)
    (st : AuthState) : AuthState :=
  {| user :=
       Some {| id := "1"; email := email;
               name := Some (name_or_default name) |};
     token := Some mock_token;
     isLoading := false;
     error := error st |}.

Definition logout (st : AuthState) : AuthState :=
  {| user := None; token := None;
     isLoading := isLoading st; error := error st |}.

Definition setAuthLoading (b : bool) (st : AuthState) : AuthState :=
  {| user := user st; token := token st; isLoading := b; error := error st |}.

Definition setAuthError (e : option string) (st : AuthState) : AuthState :=
  {| user := user st; token := token st;
     isLoading := isLoading st; error := e |}.

End Auth.

Module Api.

(** The body [generationApi.startGeneration] posts. *)
Definition payload (businessData : BusinessData) : jsval :=
  JObj
    [ ("business_name", JStr (businessName businessData));
      ("business_category", JStr (businessCategory businessData));
      ("business_description", JStr (businessDescription businessData));
      ("target_audience",
       or_else (JStr (targetAudience businessData)) (JStr ""));
      ("additional_requirements",
       or_else (match additionalInfo businessData with
                | Some info => JStr info
                | None => JUndefined
                end)
               (JStr "")) ].

Definition Headers : Type := list (string * string).

(** [headers[k] = v]: an existing key keeps its place. *)
Fixpoint assign (k v : string) (headers : Headers) : Headers :=
  match headers with
  | [] => [(k, v)]
  | (k', v') :: rest =>
      if String.eqb k k' then (k, v) :: rest
      else (k', v') :: assign k v rest
  end.

Fixpoint header (k : string) (headers : Headers) : option string :=
  match headers with
  | [] => None
  | (k', v) :: rest => if String.eqb k k' then Some v else header k rest
  end.

(** The request interceptor. *)
Definition on_request (auth : Auth.AuthState) (headers : Headers)
  : Headers :=
  match Auth.token auth with
  | Some token =>
      if String.eqb token "" then headers
      else assign "Authorization" (String.append "Bearer " token) headers
  | None => headers
  end.

(** [v === 401] *)
Definition is_401 (v : jsval) : bool :=
  match v with
  | JNum x => PrimFloat.eqb x 401%float
  | _ => false
  end.

(** The response interceptor on a failed request: the state of the auth
    slice afterwards, and what the returned promise rejects with. *)
Definition on_response_error (error : jsval) (auth : Auth.AuthState)
  : Auth.AuthState * jsval :=
  match get error "response" with
  | None => (auth, Store.TypeError)
  | Some response =>
      if is_401 (opt_get response "status")
      then (Auth.logout auth, error)
      else (auth, error)
  end.

(** The two slices a failed creation request touches. *)
Record App : Type := {
  auth : Auth.AuthState;
  generation : GenerationSlice
}.

(** [startGeneration] from its first line to its rejection, for a
    creation request that fails with [error]. *)
Definition startGeneration_failed (clock : Clock) (uuid : string)
    (businessData : BusinessData) (error : jsval) (app : App)
  : App * Store.Settled :=
  let started := Store.startGeneration_begin (generation app) in
  let '(auth', rejection) := on_response_error error (auth app) in
  let '(generation', settled) :=
    Store.startGeneration_resume clock uuid businessData
      (Store.Rejected rejection) started in
  ({| auth := auth'; generation := generation' |}, settled).

End Api.

(** ** The wizard ([components/wizard/GenerationWizard.tsx]) *)

Module Wizard.

Local Open Scope nat_scope.

Definition steps : list string :=
  ["business"; "design"; "structure"; "features"; "review"].

Record State : Type := {
  currentStep : nat;
  completedSteps : list nat
}.

Definition initial : State := {| currentStep := 0; completedSteps := [] |}.

Inductive Toast : Type :=
| Submitted
| ToastSuccess (text : string)
| ToastError (text : string).

(** [stepValidationMap[stepIndex] || []] *)
Definition fieldsToValidate (stepIndex : nat) : list string :=
  match stepIndex with
  | 0 => ["businessInfo.businessName"; "businessInfo.businessCategory";
          "businessInfo.businessDescription"]
  | 1 => ["designPreferences.colorScheme"; "designPreferences.style"]
  | 2 => ["structure.pages"]
  | _ => []
  end.

(** [trigger] is the form library's verdict on the given fields. *)
Definition isStepValid (trigger : list string -> bool) (stepIndex : nat)
  : bool :=
  match fieldsToValidate stepIndex with
  | [] => true
  | fields => trigger fields
  end.

(** [new Set([...prev, k])] *)
Definition add (k : nat) (set : list nat) : list nat :=
  if existsb (Nat.eqb k) set then set else set ++ [k].

(** [onComplete_throws] says whether the [onComplete] callback throws. *)
Definition handleNext (trigger : list string -> bool)
    (onComplete_throws : bool) (st : State) : State * list Toast :=
  if isStepValid trigger (currentStep st) then
    let completed := add (currentStep st) (completedSteps st) in
    if currentStep st <? List.length steps - 1 then
      ({| currentStep := currentStep st + 1; completedSteps := completed |},
       [])
    else
      ({| currentStep := currentStep st; completedSteps := completed |},
       if onComplete_throws
       then [Submitted; ToastError "Error submitting form"]
       else [Submitted; ToastSuccess "Building your website..."])
  else (st, [ToastError "Please fill in all required fields"]).

Definition handlePrevious (st : State) : State :=
  if 0 <? currentStep st
  then {| currentStep := currentStep st - 1;
          completedSteps := completedSteps st |}
  else st.

Definition handleStepClick (trigger : list string -> bool) (stepIndex : nat)
    (st : State) : State :=
  if (stepIndex <? currentStep st)
     || ((stepIndex =? currentStep st + 1)
         && isStepValid trigger (currentStep st))
  then {| currentStep := stepIndex; completedSteps := completedSteps st |}
  else st.

Inductive Action : Type :=
| Next (onComplete_throws : bool)
| Previous
| Click (stepIndex : nat).

(** Each action sees the verdict the form gives at that moment. *)
Definition act (a : (list string -> bool) * Action) (st : State)
  : State * list Toast :=
  match a with
  | (trigger, Next onComplete_throws) =>
      handleNext trigger onComplete_throws st
  | (_, Previous) => (handlePrevious st, [])
  | (trigger, Click stepIndex) => (handleStepClick trigger stepIndex st, [])
  end.

Fixpoint acts (l : list ((list string -> bool) * Action)) (st : State)
  : State * list Toast :=
  match l with
  | [] => (st, [])
  | a :: rest =>
      match act a st with
      | (st1, t1) =>
          match acts rest st1 with
          | (st2, t2) => (st2, t1 ++ t2)
          end
      end
  end.

(** The buttons of the step bar exist for the five steps only. *)
Definition on_screen (a : (list string -> bool) * Action) : bool :=
  match snd a with
  | Click stepIndex => stepIndex <? List.length steps
  | _ => true
  end.

End Wizard.

(** ** The phases of a tracked session *)

Module Phases.

Definition ids (g : GenerationState.t) : list string :=
  map GenerationStep.id (GenerationState.steps g).

Definition names (g : GenerationState.t) : list string :=
  map GenerationStep.name (GenerationState.steps g).

(** What no action of the slice ever writes into a phase. *)
Definition untouched (st : GenerationStep.t) : Prop :=
  GenerationStep.status st <> failed /\
  GenerationStep.startedAt st = None /\
  GenerationStep.error st = None.

Definition wellformed (g : GenerationState.t) : Prop :=
  ids g = ["content"; "design"; "structure"; "quality"] /\
  names g = ["Content Generation"; "Design System"; "Website Structure";
             "Quality Check"] /\
  Forall untouched (GenerationState.steps g).

Definition current_wellformed (s : GenerationSlice) : Prop :=
  forall g, currentGeneration s = Some g -> wellformed g.

Definition is_setWsConnected (op : Run.Op) : bool :=
  match op with
  | Run.SetWsConnected _ => true
  | _ => false
  end.

End Phases.

(** ** More fixtures *)

Module Samples.

Definition palette : Website.DesignSystem :=
  {| Website.colors :=
       Website.Colors.mk "#1d4ed8" "#9333ea" "#f59e0b" "#ffffff" "#111827";
     Website.typography := Website.Typography.mk "Inter" "Inter";
     Website.spacing := Website.Spacing.mk 4%float |}.

Definition page (id : string) : Website.WebsitePage.t :=
  Website.WebsitePage.mk id "Home" "/" [].

Definition site (url : string) (pages : list Website.WebsitePage.t)
  : Website.GenerationResult :=
  {| Website.websiteUrl := url;
     Website.htmlContent := "<html></html>";
     Website.cssContent := "";
     Website.jsContent := "";
     Website.images := [];
     Website.pages := pages;
     Website.designSystem := palette |}.

Definition signed_in : Auth.AuthState :=
  Auth.login_resolved "ann@example.org" "secret" (Auth.begin Auth.initial).

Definition unauthorized : jsval :=
  JObj [("message", JStr "Request failed with status code 401");
        ("response",
         JObj [("status", JNum 401%float);
               ("data", JObj [("detail", JStr "Not authenticated")])])].

Definition always (b : bool) : list string -> bool := fun _ => b.

End Samples.

(** * Properties *)

(** ** Values *)

Lemma str_strict_eq_true (s : string) (v : jsval) :
  str_strict_eq s v = true <-> v = JStr s.
Proof.
  destruct v; simpl; split; intro H; try discriminate.
  - apply String.eqb_eq in H. now subst.
  - injection H as ->. apply String.eqb_refl.
Qed.

Lemma str_strict_eq_false (s : string) (v : jsval) :
  v <> JStr s -> str_strict_eq s v = false.
Proof.
  intro H. destruct (str_strict_eq s v) eqn:E; [|reflexivity].
  now apply str_strict_eq_true in E.
Qed.

Lemma lookup_absent (k : string) (fields : list (string * jsval)) :
  existsb (fun kv => String.eqb k (fst kv)) fields = false ->
  lookup k fields = JUndefined.
Proof.
  induction fields as [|[k' v] rest IH]; simpl; [reflexivity|].
  intro H. apply orb_false_iff in H as [Hk Hrest].
  rewrite Hk. now apply IH.
Qed.

Lemma prop_absent (k : string) (v : jsval) :
  has_field k v = false -> prop v k = JUndefined.
Proof.
  destruct v; simpl; try reflexivity. apply lookup_absent.
Qed.

Lemma or_else_truthy (a b : jsval) : truthy a = true -> or_else a b = a.
Proof. unfold or_else. now intros ->. Qed.

Lemma or_else_falsy (a b : jsval) : truthy a = false -> or_else a b = b.
Proof. unfold or_else. now intros ->. Qed.

Example truthy_zero : truthy zero = false.
Proof. reflexivity. Qed.

Example truthy_hundred : truthy hundred = true.
Proof. reflexivity. Qed.

Example truthy_empty_object : truthy (JObj []) = true.
Proof. reflexivity. Qed.

(** ** Steps *)

Section Steps.

Variable p : GenerationProgress.t.

Lemma update_step_id (st : GenerationStep.t) :
  GenerationStep.id (Store.update_step p st) = GenerationStep.id st.
Proof.
  unfold Store.update_step.
  now destruct (str_strict_eq _ _).
Qed.

Lemma update_step_name (st : GenerationStep.t) :
  GenerationStep.name (Store.update_step p st) = GenerationStep.name st.
Proof.
  unfold Store.update_step.
  now destruct (str_strict_eq _ _).
Qed.

Lemma update_step_other (st : GenerationStep.t) :
  GenerationProgress.step p <> JStr (GenerationStep.id st) ->
  Store.update_step p st = st.
Proof.
  intro H. unfold Store.update_step.
  now rewrite (str_strict_eq_false _ _ H).
Qed.

Lemma update_steps_ids (l : list GenerationStep.t) :
  map GenerationStep.id (map (Store.update_step p) l)
  = map GenerationStep.id l.
Proof.
  rewrite map_map. apply map_ext. exact update_step_id.
Qed.

Lemma update_steps_others (l : list GenerationStep.t) :
  (forall st, In st l ->
              GenerationProgress.step p <> JStr (GenerationStep.id st)) ->
  map (Store.update_step p) l = l.
Proof.
  induction l as [|st l IH]; simpl; intro H; [reflexivity|].
  rewrite update_step_other by (apply H; now left).
  f_equal. apply IH. intros st' Hin. apply H. now right.
Qed.

End Steps.

Lemma map_from_length {A B : Type} (f : nat -> A -> B) (l : list A) :
  forall k, List.length (map_from f k l) = List.length l.
Proof.
  induction l as [|a l IH]; simpl; intro k; [reflexivity|].
  now rewrite IH.
Qed.

Lemma map_from_Forall {A B : Type} (f : nat -> A -> B) (P : B -> Prop) :
  (forall k a, P (f k a)) ->
  forall l k, Forall P (map_from f k l).
Proof.
  intros Hf l. induction l as [|a l IH]; simpl; intro k; constructor.
  - apply Hf.
  - apply IH.
Qed.

Lemma map_from_map {A B C : Type} (f : nat -> A -> B) (g : B -> C)
    (h : A -> C) :
  (forall k a, g (f k a) = h a) ->
  forall l k, map g (map_from f k l) = map h l.
Proof.
  intros Hf l. induction l as [|a l IH]; simpl; intro k; [reflexivity|].
  now rewrite Hf, IH.
Qed.

Lemma map_from_nth {A B : Type} (f : nat -> A -> B) (l : list A) :
  forall k j a, nth_error l j = Some a ->
                nth_error (map_from f k l) j = Some (f (k + j)%nat a).
Proof.
  induction l as [|x l IH]; intros k [|j] a H; simpl in *; try discriminate.
  - injection H as ->. now rewrite Nat.add_0_r.
  - rewrite (IH (S k) j a H). f_equal. f_equal. lia.
Qed.

(** ** Completion *)

Lemma completedGeneration_steps (clock : Clock) (result : jsval)
    (current : GenerationState.t) :
  Forall Run.step_completed
    (GenerationState.steps (Store.completedGeneration clock result current)).
Proof.
  simpl. apply map_from_Forall. intros k st. now split.
Qed.

Lemma completedGeneration_ids (clock : Clock) (result : jsval)
    (current : GenerationState.t) :
  map GenerationStep.id
    (GenerationState.steps (Store.completedGeneration clock result current))
  = map GenerationStep.id (GenerationState.steps current).
Proof.
  simpl. now apply map_from_map.
Qed.

(** C3, as amended.  With a current session, [completeGeneration] sets
    its status to [completed], its progress to 100 and its [completedAt]
    to the clock reading, turns every phase into [completed] with
    progress 100 (same phases, same order), attaches the result, clears
    [isGenerating], and puts the finalized session at the HEAD of the
    history list, in front of the older entries; without a current
    session it changes nothing. *)
Theorem completeGeneration_postcondition
    (clock : Clock) (result : jsval) (s : GenerationSlice) :
  let s' := Store.completeGeneration clock result s in
  match currentGeneration s with
  | None => s' = s
  | Some current =>
      exists done,
        currentGeneration s' = Some done /\
        GenerationState.status done = completed /\
        GenerationState.progress done = hundred /\
        GenerationState.completedAt done = Some (DateAt (clock 0%nat)) /\
        Forall Run.step_completed (GenerationState.steps done) /\
        map GenerationStep.id (GenerationState.steps done)
          = map GenerationStep.id (GenerationState.steps current) /\
        GenerationState.result done = Some result /\
        GenerationState.id done = GenerationState.id current /\
        generationHistory s' = done :: generationHistory s /\
        isGenerating s' = false
  end.
Proof.
  unfold Store.completeGeneration.
  destruct (currentGeneration s) as [current|]; simpl; [|reflexivity].
  exists (Store.completedGeneration clock result current).
  repeat split.
  - apply completedGeneration_steps.
  - apply completedGeneration_ids.
Qed.

(** C3, as stated, fails: with an older entry in the history, the
    finalized session is not appended after it but placed before it. *)
Lemma completeGeneration_does_not_append :
  let s := Fixture.restarted in
  let s' := Store.completeGeneration Fixture.noon Fixture.website s in
  exists current older,
    currentGeneration s = Some current /\
    generationHistory s = [older] /\
    generationHistory s'
      = [Store.completedGeneration Fixture.noon Fixture.website current;
         older] /\
    generationHistory s'
      <> generationHistory s
         ++ [Store.completedGeneration Fixture.noon Fixture.website current].
Proof.
  eexists. eexists.
  split; [reflexivity|]. split; [reflexivity|]. split; [reflexivity|].
  intro H. vm_compute in H. discriminate H.
Qed.

(** ** Cancellation *)

Lemma cancelGeneration_settle_store (outcome : Store.CancelOutcome)
    (s : GenerationSlice) :
  fst (Store.cancelGeneration_settle outcome s) = s.
Proof. now destruct outcome. Qed.

(** C5.  With a current session, [cancelGeneration] clears
    [currentGeneration] and [isGenerating] at once, whatever becomes of
    the DELETE request; when the request is rejected the handler writes
    one line to the console and leaves the store, at whatever state it
    has by then, as it is. *)
Theorem cancelGeneration_local
    (s : GenerationSlice) (current : GenerationState.t)
    (outcome : Store.CancelOutcome) :
  currentGeneration s = Some current ->
  let cleared := fst (Store.cancelGeneration s) in
  let final := fst (Store.cancelGeneration_run outcome s) in
  currentGeneration cleared = None /\
  isGenerating cleared = false /\
  snd (Store.cancelGeneration s) = [ApiDelete (GenerationState.id current)] /\
  final = cleared /\
  generationHistory final = generationHistory s /\
  (forall later, fst (Store.cancelGeneration_settle outcome later) = later) /\
  (forall error, outcome = Store.CancelRejected error ->
     snd (Store.cancelGeneration_run outcome s)
     = [ApiDelete (GenerationState.id current);
        ConsoleError "Failed to cancel generation:"]).
Proof.
  intro Hcur.
  unfold Store.cancelGeneration_run, Store.cancelGeneration.
  rewrite Hcur. simpl.
  repeat split.
  - now destruct outcome.
  - now destruct outcome.
  - intro later. apply cancelGeneration_settle_store.
  - intros error ->. reflexivity.
Qed.

Lemma cancelGeneration_local_witness :
  currentGeneration Fixture.started <> None /\
  currentGeneration
    (fst (Store.cancelGeneration_run
            (Store.CancelRejected (JStr "Network Error")) Fixture.started))
  = None.
Proof.
  split; [discriminate|].
  pose proof (cancelGeneration_local Fixture.started
                (Store.newGeneration Fixture.noon (JStr "g1") Fixture.bakery)
                (Store.CancelRejected (JStr "Network Error"))
                eq_refl) as H.
  cbv zeta in H. destruct H as (Hcleared & _ & _ & Hfinal & _).
  rewrite Hfinal. exact Hcleared.
Defined.

(** ** Progress events and the phase list *)

Lemma updateProgress_current (p : GenerationProgress.t) (s : GenerationSlice)
    (current : GenerationState.t) :
  currentGeneration s = Some current ->
  exists updated,
    currentGeneration (Store.updateProgress p s) = Some updated /\
    GenerationState.status updated = GenerationState.status current /\
    GenerationState.progress updated = GenerationProgress.progress p /\
    GenerationState.steps updated
      = map (Store.update_step p) (GenerationState.steps current) /\
    GenerationState.result updated = GenerationState.result current /\
    GenerationState.error updated = GenerationState.error current /\
    GenerationState.id updated = GenerationState.id current.
Proof.
  intro Hcur. unfold Store.updateProgress. rewrite Hcur. simpl.
  eexists. split; [reflexivity|]. now repeat split.
Qed.

Lemma updateProgress_frame (p : GenerationProgress.t) (s : GenerationSlice) :
  generationHistory (Store.updateProgress p s) = generationHistory s /\
  isGenerating (Store.updateProgress p s) = isGenerating s /\
  wsConnected (Store.updateProgress p s) = wsConnected s.
Proof.
  unfold Store.updateProgress.
  now destruct (currentGeneration s).
Qed.

Lemma update_all_ids (ps : list GenerationProgress.t) :
  forall s current,
    currentGeneration s = Some current ->
    exists updated,
      currentGeneration (Run.update_all ps s) = Some updated /\
      map GenerationStep.id (GenerationState.steps updated)
        = map GenerationStep.id (GenerationState.steps current).
Proof.
  induction ps as [|p ps IH]; simpl; intros s current Hcur.
  - now exists current.
  - destruct (updateProgress_current p s current Hcur)
      as (mid & Hmid & _ & _ & Hsteps & _).
    destruct (IH _ _ Hmid) as (updated & Hup & Hids).
    exists updated. split; [exact Hup|].
    now rewrite Hids, Hsteps, update_steps_ids.
Qed.

(** C8.  A progress event whose step matches no phase id sets the
    session's overall progress and leaves the phase list exactly as it
    was; and whatever the step of the event is, [updateProgress] keeps the
    phase list at the same length with the same ids in the same order,
    over any number of calls. *)
Theorem updateProgress_phase_isolation
    (s : GenerationSlice) (current : GenerationState.t) :
  currentGeneration s = Some current ->
  (forall p,
     (forall st, In st (GenerationState.steps current) ->
                 GenerationProgress.step p <> JStr (GenerationStep.id st)) ->
     exists updated,
       currentGeneration (Store.updateProgress p s) = Some updated /\
       GenerationState.progress updated = GenerationProgress.progress p /\
       GenerationState.steps updated = GenerationState.steps current) /\
  (forall ps,
     exists updated,
       currentGeneration (Run.update_all ps s) = Some updated /\
       map GenerationStep.id (GenerationState.steps updated)
         = map GenerationStep.id (GenerationState.steps current) /\
       List.length (GenerationState.steps updated)
         = List.length (GenerationState.steps current)).
Proof.
  intro Hcur. split.
  - intros p Hnone.
    destruct (updateProgress_current p s current Hcur)
      as (updated & Hup & _ & Hprog & Hsteps & _).
    exists updated. repeat split; try assumption.
    rewrite Hsteps. now apply update_steps_others.
  - intro ps.
    destruct (update_all_ids ps s current Hcur) as (updated & Hup & Hids).
    exists updated. repeat split; try assumption.
    rewrite <- (length_map GenerationStep.id), Hids.
    apply length_map.
Qed.

Lemma updateProgress_phase_isolation_witness :
  exists updated,
    currentGeneration
      (Store.updateProgress Fixture.unknown_phase Fixture.started)
    = Some updated /\
    GenerationState.progress updated = JNum 55%float /\
    GenerationState.steps updated = Store.initial_steps.
Proof.
  destruct (updateProgress_phase_isolation Fixture.started
              (Store.newGeneration Fixture.noon (JStr "g1") Fixture.bakery)
              eq_refl) as [Hone _].
  apply (Hone Fixture.unknown_phase).
  intros st Hin. simpl in Hin.
  repeat (destruct Hin as [<- | Hin]; [discriminate|]).
  contradiction.
Defined.

(** ** The history list *)

Lemma failGeneration_history (clock : Clock) (error : GenerationError.t)
    (s : GenerationSlice) :
  generationHistory (Store.failGeneration clock error s)
  = generationHistory s.
Proof.
  unfold Store.failGeneration. now destruct (currentGeneration s).
Qed.

Lemma startGeneration_history (clock : Clock) (uuid : string)
    (businessData : BusinessData) (outcome : Store.ApiOutcome)
    (s : GenerationSlice) :
  generationHistory
    (fst (Store.startGeneration clock uuid businessData outcome s))
  = generationHistory s.
Proof.
  unfold Store.startGeneration, Store.startGeneration_resume.
  destruct outcome as [response|apiError]; [|reflexivity].
  now destruct (get response "generation_id").
Qed.

Lemma startGeneration_resume_history (clock : Clock) (uuid : string)
    (businessData : BusinessData) (outcome : Store.ApiOutcome)
    (s : GenerationSlice) :
  generationHistory
    (fst (Store.startGeneration_resume clock uuid businessData outcome s))
  = generationHistory s.
Proof.
  unfold Store.startGeneration_resume.
  destruct outcome as [response|apiError]; [|reflexivity].
  now destruct (get response "generation_id").
Qed.

Lemma cancelGeneration_run_history (outcome : Store.CancelOutcome)
    (s : GenerationSlice) :
  generationHistory (fst (Store.cancelGeneration_run outcome s))
  = generationHistory s.
Proof.
  unfold Store.cancelGeneration_run, Store.cancelGeneration.
  destruct (currentGeneration s); [|reflexivity].
  now destruct outcome.
Qed.

Lemma step_history (clock : Clock) (op : Run.Op) (s : GenerationSlice) :
  Run.is_complete op = false ->
  generationHistory (Run.step clock op s) = generationHistory s.
Proof.
  destruct op; simpl; intro H; try discriminate.
  - apply startGeneration_history.
  - reflexivity.
  - apply startGeneration_resume_history.
  - apply updateProgress_frame.
  - apply failGeneration_history.
  - apply cancelGeneration_run_history.
  - reflexivity.
  - reflexivity.
Qed.

Lemma step_history_completed (clock : Clock) (op : Run.Op)
    (s : GenerationSlice) :
  Run.history_completed s -> Run.history_completed (Run.step clock op s).
Proof.
  unfold Run.history_completed. intro H.
  destruct (Run.is_complete op) eqn:E.
  - destruct op; try discriminate. simpl.
    unfold Store.completeGeneration.
    destruct (currentGeneration s); [|exact H].
    simpl. now constructor.
  - now rewrite step_history.
Qed.

Lemma run_history_completed (ops : list (Clock * Run.Op)) :
  forall s,
    Run.history_completed s -> Run.history_completed (Run.run ops s).
Proof.
  induction ops as [|[clock op] ops IH]; simpl; intros s H; [exact H|].
  apply IH. now apply step_history_completed.
Qed.

(** C9.  [failGeneration] leaves the history list as it is; every
    action of the slice other than [completeGeneration] does so too, and
    [completeGeneration] adds at most the one session it finalizes; hence
    after any sequence of actions from the initial store (or from a store
    rehydrated with a history of completed sessions) the history holds
    only sessions whose status is [completed]. *)
Theorem history_only_completed :
  (forall clock error s,
     generationHistory (Store.failGeneration clock error s)
     = generationHistory s) /\
  (forall clock op s,
     Run.is_complete op = false ->
     generationHistory (Run.step clock op s) = generationHistory s) /\
  (forall clock result s,
     generationHistory (Store.completeGeneration clock result s)
     = match currentGeneration s with
       | Some current =>
           Store.completedGeneration clock result current
           :: generationHistory s
       | None => generationHistory s
       end) /\
  (forall ops, Run.history_completed (Run.run ops Store.initial)) /\
  (forall ops s,
     Run.history_completed s -> Run.history_completed (Run.run ops s)).
Proof.
  split; [exact failGeneration_history|].
  split; [exact step_history|].
  split.
  - intros clock result s. unfold Store.completeGeneration.
    now destruct (currentGeneration s).
  - split.
    + intro ops. apply run_history_completed. constructor.
    + exact run_history_completed.
Qed.

Lemma history_only_completed_witness :
  Run.is_complete (Run.Fail Fixture.server_error) = false /\
  generationHistory
    (Run.step Fixture.noon (Run.Fail Fixture.server_error) Fixture.restarted)
  = generationHistory Fixture.restarted.
Proof.
  split; [reflexivity|].
  apply (proj1 (proj2 history_only_completed)). reflexivity.
Defined.

(** ** Terminal sessions and inbound events *)

Lemma completed_steps_quiet (clock : Clock) (result : jsval)
    (g0 current : GenerationState.t) :
  Run.quiet_steps g0 (Store.completedGeneration clock result current).
Proof.
  intros st Hin Hst.
  pose proof (completedGeneration_steps clock result current) as Hall.
  rewrite Forall_forall in Hall.
  destruct (Hall st Hin) as [Hdone _]. congruence.
Qed.

Lemma apply_current (clock : Clock) (ev : Run.Inbound) (s : GenerationSlice)
    (g : GenerationState.t) :
  currentGeneration s = Some g ->
  exists g',
    currentGeneration (Run.apply clock ev s) = Some g' /\
    (is_terminal (GenerationState.status g) = true ->
     is_terminal (GenerationState.status g') = true) /\
    (Run.is_progress (clock, ev) = true ->
     GenerationState.status g' = GenerationState.status g) /\
    (Run.is_progress (clock, ev) = false ->
     forall g0, Run.quiet_steps g0 g -> Run.quiet_steps g0 g').
Proof.
  intro Hcur. destruct ev as [p|result|error]; simpl.
  - destruct (updateProgress_current p s g Hcur)
      as (g' & Hg' & Hst & _).
    exists g'. split; [exact Hg'|]. rewrite Hst.
    repeat split; try tauto. discriminate.
  - unfold Store.completeGeneration. rewrite Hcur. simpl.
    eexists. split; [reflexivity|].
    repeat split; try discriminate.
    intros _ g0 _. apply completed_steps_quiet.
  - unfold Store.failGeneration. rewrite Hcur. simpl.
    eexists. split; [reflexivity|].
    repeat split; try discriminate.
    intros _ g0 Hq. exact Hq.
Qed.

Lemma apply_all_current (evs : list (Clock * Run.Inbound)) :
  forall s g,
    currentGeneration s = Some g ->
    exists g',
      currentGeneration (Run.apply_all evs s) = Some g' /\
      (is_terminal (GenerationState.status g) = true ->
       is_terminal (GenerationState.status g') = true) /\
      (forallb Run.is_progress evs = true ->
       GenerationState.status g' = GenerationState.status g) /\
      (existsb Run.is_progress evs = false ->
       forall g0, Run.quiet_steps g0 g -> Run.quiet_steps g0 g').
Proof.
  induction evs as [|[clock ev] evs IH]; simpl; intros s g Hcur.
  - exists g. now repeat split.
  - destruct (apply_current clock ev s g Hcur)
      as (g1 & Hg1 & Hterm1 & Hstat1 & Hquiet1).
    destruct (IH _ _ Hg1) as (g' & Hg' & Hterm & Hstat & Hquiet).
    exists g'. split; [exact Hg'|]. repeat split.
    + auto.
    + intro H. apply andb_true_iff in H as [H1 H2].
      rewrite (Hstat H2). now apply Hstat1.
    + intro H. apply orb_false_iff in H as [H1 H2].
      intros g0 Hq. apply (Hquiet H2). now apply Hquiet1.
Qed.

(** C1, as amended.  Once the current session is [completed] or
    [failed], every sequence of inbound events leaves it [completed] or
    [failed]: [updateProgress] never writes the status, so a run of
    progress events keeps it exactly; [completeGeneration] and
    [failGeneration] write their own status also over a terminal one.
    A run without progress events reopens no phase: [updateProgress] is
    the only action that sets a phase to [in_progress], and it does so
    whatever the status of the session. *)
Theorem terminal_stays_terminal
    (evs : list (Clock * Run.Inbound)) (s : GenerationSlice)
    (g : GenerationState.t) :
  currentGeneration s = Some g ->
  is_terminal (GenerationState.status g) = true ->
  exists g',
    currentGeneration (Run.apply_all evs s) = Some g' /\
    is_terminal (GenerationState.status g') = true /\
    (forallb Run.is_progress evs = true ->
     GenerationState.status g' = GenerationState.status g) /\
    (existsb Run.is_progress evs = false ->
     forall st', ~ Run.reopened g g' st').
Proof.
  intros Hcur Hterm.
  destruct (apply_all_current evs s g Hcur)
    as (g' & Hg' & Hterm' & Hstat & Hquiet).
  exists g'. split; [exact Hg'|]. split; [auto|]. split; [exact Hstat|].
  intros Hnone st' (Hin & Hst & Hfresh).
  assert (Hq : Run.quiet_steps g g) by (intros st Hst_in _; exact Hst_in).
  specialize (Hquiet Hnone g Hq st' Hin Hst).
  exact (Hfresh st' Hquiet eq_refl Hst).
Qed.

Lemma terminal_stays_terminal_witness :
  exists g',
    currentGeneration
      (Run.apply_all [(Fixture.noon, Run.Progress Fixture.content_80);
                      (Fixture.noon, Run.Progress Fixture.unknown_phase)]
         Fixture.finished) = Some g' /\
    GenerationState.status g' = completed.
Proof.
  destruct (terminal_stays_terminal
              [(Fixture.noon, Run.Progress Fixture.content_80);
               (Fixture.noon, Run.Progress Fixture.unknown_phase)]
              Fixture.finished
              (Store.completedGeneration Fixture.noon Fixture.website
                 (Store.newGeneration Fixture.noon (JStr "g1")
                    Fixture.bakery))
              eq_refl eq_refl)
    as (g' & Hg' & _ & Hstat & _).
  exists g'. split; [exact Hg'|]. exact (Hstat eq_refl).
Defined.

(** C1, as stated, fails.  On a completed session a progress frame for
    the phase [content] sets that phase back to [in_progress], and a
    failure frame after it turns the status from [completed] into
    [failed]. *)
Lemma terminal_session_reopened :
  let s := Fixture.finished in
  let s' :=
    Run.apply_all [(Fixture.noon, Run.Progress Fixture.content_80);
                   (Fixture.noon, Run.Failure Fixture.server_error)] s in
  exists g g' st',
    currentGeneration s = Some g /\
    currentGeneration s' = Some g' /\
    GenerationState.status g = completed /\
    GenerationState.status g' = failed /\
    GenerationStep.id st' = "content" /\
    Run.reopened g g' st'.
Proof.
  do 2 eexists.
  exists (GenerationStep.mk "content" "Content Generation" in_progress
            (JNum 80%float) None
            (Some (DateAt (Fixture.noon 1%nat))) None).
  split; [reflexivity|]. split; [reflexivity|].
  split; [reflexivity|]. split; [reflexivity|]. split; [reflexivity|].
  split; [now left|]. split; [reflexivity|].
  intros st Hin _. simpl in Hin.
  repeat (destruct Hin as [<- | Hin]; [discriminate|]).
  contradiction.
Qed.

(** ** Result and error *)

Lemma step_settled (clock : Clock) (op : Run.Op) (s : GenerationSlice) :
  Run.current_settled s -> Run.current_settled (Run.step clock op s).
Proof.
  unfold Run.current_settled. intros H g.
  destruct op as [bd outcome uuid| |bd outcome uuid|p|result|error
                 |outcome| |connected];
    simpl.
  - unfold Store.startGeneration, Store.startGeneration_resume.
    destruct outcome as [response|apiError].
    + destruct (get response "generation_id"); simpl.
      * intro E. injection E as <-. now split.
      * apply H.
    + apply H.
  - apply H.
  - unfold Store.startGeneration_resume.
    destruct outcome as [response|apiError].
    + destruct (get response "generation_id"); simpl.
      * intro E. injection E as <-. now split.
      * apply H.
    + apply H.
  - unfold Store.updateProgress.
    destruct (currentGeneration s) as [current|] eqn:E;
      [|simpl; rewrite E; discriminate].
    simpl. intro E'. injection E' as <-.
    exact (H current eq_refl).
  - unfold Store.completeGeneration.
    destruct (currentGeneration s) as [current|] eqn:E;
      [|simpl; rewrite E; discriminate].
    simpl. intro E'. injection E' as <-. discriminate.
  - unfold Store.failGeneration.
    destruct (currentGeneration s) as [current|] eqn:E;
      [|simpl; rewrite E; discriminate].
    simpl. intro E'. injection E' as <-. discriminate.
  - unfold Store.cancelGeneration_run, Store.cancelGeneration.
    destruct (currentGeneration s) as [current|] eqn:E;
      [|simpl; rewrite E; discriminate].
    destruct outcome; simpl; discriminate.
  - discriminate.
  - apply H.
Qed.

Lemma run_settled (ops : list (Clock * Run.Op)) :
  forall s, Run.current_settled s -> Run.current_settled (Run.run ops s).
Proof.
  induction ops as [|[clock op] ops IH]; simpl; intros s H; [exact H|].
  apply IH. now apply step_settled.
Qed.

(** C6, as amended.  In every store reachable from the initial one, a
    current session is never [pending]; while it is [in_progress] it has
    neither a result nor an error; when it is [completed] it has a result
    and when it is [failed] it has an error.  [updateProgress] keeps both
    fields, [completeGeneration] writes [result] and keeps [error],
    [failGeneration] writes [error] and keeps [result]. *)
Theorem result_error_lifecycle
    (ops : list (Clock * Run.Op)) (g : GenerationState.t) :
  currentGeneration (Run.run ops Store.initial) = Some g ->
  Run.settled_fields g /\
  (forall p, exists g',
     currentGeneration
       (Store.updateProgress p (Run.run ops Store.initial)) = Some g' /\
     GenerationState.result g' = GenerationState.result g /\
     GenerationState.error g' = GenerationState.error g) /\
  (forall clock result, exists g',
     currentGeneration
       (Store.completeGeneration clock result (Run.run ops Store.initial))
     = Some g' /\
     GenerationState.result g' = Some result /\
     GenerationState.error g' = GenerationState.error g) /\
  (forall clock error, exists g',
     currentGeneration
       (Store.failGeneration clock error (Run.run ops Store.initial))
     = Some g' /\
     GenerationState.result g' = GenerationState.result g /\
     GenerationState.error g' = Some error).
Proof.
  intro Hcur. split.
  - apply (run_settled ops Store.initial); [|exact Hcur].
    intros g0 H0. discriminate H0.
  - split; [|split].
    + intro p.
      destruct (updateProgress_current p _ g Hcur)
        as (g' & Hg' & _ & _ & _ & Hres & Herr & _).
      now exists g'.
    + intros clock result. unfold Store.completeGeneration.
      rewrite Hcur. simpl. eexists. now repeat split.
    + intros clock error. unfold Store.failGeneration.
      rewrite Hcur. simpl. eexists. now repeat split.
Qed.

Lemma result_error_lifecycle_witness :
  Run.settled_fields
    (Store.newGeneration Fixture.noon (JStr "g1") Fixture.bakery).
Proof.
  apply (result_error_lifecycle
           [(Fixture.noon,
             Run.Start Fixture.bakery
               (Store.Resolved (Fixture.created "g1")) "u-1")]
           (Store.newGeneration Fixture.noon (JStr "g1") Fixture.bakery)
           eq_refl).
Defined.

(** C6, as stated, fails.  A failure that follows the completion of the
    same session (a late [error] frame, or the channel giving up after the
    server has closed it) leaves a session with both fields set, and a
    second completion frame assigns [result] a second time. *)
Lemma result_and_error_both_set :
  let ops :=
    [(Fixture.noon,
      Run.Start Fixture.bakery (Store.Resolved (Fixture.created "g1")) "u-1");
     (Fixture.noon, Run.Complete Fixture.website);
     (Fixture.noon, Run.Fail Fixture.server_error)] in
  exists g,
    currentGeneration (Run.run ops Store.initial) = Some g /\
    GenerationState.result g = Some Fixture.website /\
    GenerationState.error g = Some Fixture.server_error /\
    (exists g2,
       currentGeneration
         (Run.run (ops ++ [(Fixture.noon, Run.Complete (JObj []))])
            Store.initial) = Some g2 /\
       GenerationState.result g2 = Some (JObj []) /\
       GenerationState.result g2 <> GenerationState.result g).
Proof.
  eexists. split; [reflexivity|]. split; [reflexivity|].
  split; [reflexivity|].
  eexists. split; [reflexivity|]. split; [reflexivity|].
  discriminate.
Qed.

(** ** Starting a generation *)

Lemma errorMessage_cases (apiError : jsval) :
  let detail :=
    opt_get (opt_get (opt_get apiError "response") "data") "detail" in
  Store.errorMessage apiError
  = if truthy detail then detail else Store.generic_message.
Proof. reflexivity. Qed.

Lemma startGeneration_catch_frame (apiError : jsval) (s : GenerationSlice) :
  let r := Store.startGeneration_catch apiError s in
  currentGeneration (fst r) = currentGeneration s /\
  generationHistory (fst r) = generationHistory s /\
  isGenerating (fst r) = false /\
  snd r = Store.new_Error (Store.errorMessage apiError).
Proof. now repeat split. Qed.

Lemma new_Error_cases (apiError : jsval) :
  let detail :=
    opt_get (opt_get (opt_get apiError "response") "data") "detail" in
  (truthy detail = false ->
   Store.new_Error (Store.errorMessage apiError)
   = Store.Error Store.generic_text) /\
  (forall d, detail = JStr d -> d <> "" ->
   Store.new_Error (Store.errorMessage apiError) = Store.Error [Chars d]) /\
  (truthy detail = true ->
   forall message, ToString detail = Some message ->
   Store.new_Error (Store.errorMessage apiError) = Store.Error message) /\
  (truthy detail = true -> ToString detail = None ->
   Store.new_Error (Store.errorMessage apiError) = Store.TypeErrorThrown).
Proof.
  cbv zeta. unfold Store.errorMessage, Store.new_Error, or_else.
  split; [now intros ->|]. split; [|split].
  - intros d -> Hd. apply String.eqb_neq in Hd. simpl. now rewrite Hd.
  - intros -> message Hm. now rewrite Hm.
  - intros -> Hm. now rewrite Hm.
Qed.



Example startGeneration_null_body :
  snd (Store.startGeneration Fixture.noon "u-1" Fixture.bakery
         (Store.Resolved JNull) Fixture.finished)
  = Store.Error Store.generic_text.
Proof. reflexivity. Qed.

Example startGeneration_unconvertible_detail :
  snd (Store.startGeneration Fixture.noon "u-1" Fixture.bakery
         (Store.Rejected
            (Fixture.axios_error
               (JObj [("detail", JObj [("toString", JNum 1%float)])])))
         Store.initial)
  = Store.TypeErrorThrown.
Proof. reflexivity. Qed.


(** C10, as amended.  When the creation request resolves with a body
    other than [null] and [undefined], [startGeneration] fulfils and the
    new session's id is the body's [generation_id] if that value is
    truthy, and the client-generated UUID if it is missing or falsy
    (the empty string, [null], [0], [false]). *)
Theorem startGeneration_session_id
    (clock : Clock) (uuid : string) (businessData : BusinessData)
    (response v : jsval) (s : GenerationSlice) :
  get response "generation_id" = Some v ->
  let r :=
    Store.startGeneration clock uuid businessData
      (Store.Resolved response) s in
  snd r = Store.Fulfilled /\
  (exists g,
     currentGeneration (fst r) = Some g /\
     g = Store.newGeneration clock
           (if truthy v then v else JStr uuid) businessData /\
     (truthy v = true -> GenerationState.id g = v) /\
     (truthy v = false -> GenerationState.id g = JStr uuid) /\
     (has_field "generation_id" response = false ->
      GenerationState.id g = JStr uuid)) /\
  isGenerating (fst r) = true /\
  generationHistory (fst r) = generationHistory s.
Proof.
  intro Hget.
  unfold Store.startGeneration, Store.startGeneration_resume.
  rewrite Hget. simpl.
  split; [reflexivity|]. split; [|now split].
  eexists. split; [reflexivity|]. split; [reflexivity|].
  simpl. unfold or_else.
  split; [now intros ->|]. split; [now intros ->|].
  intro Habsent. apply prop_absent in Habsent.
  assert (Hv : v = JUndefined).
  { destruct response; simpl in Hget; try discriminate;
      injection Hget as <-; try reflexivity. exact Habsent. }
  now rewrite Hv.
Qed.

Lemma startGeneration_session_id_witness :
  get (Fixture.created "g1") "generation_id" = Some (JStr "g1") /\
  exists g,
    currentGeneration
      (fst (Store.startGeneration Fixture.noon "u-1" Fixture.bakery
              (Store.Resolved (Fixture.created "g1")) Store.initial))
    = Some g /\
    GenerationState.id g = JStr "g1".
Proof.
  split; [reflexivity|].
  destruct (startGeneration_session_id Fixture.noon "u-1" Fixture.bakery
              (Fixture.created "g1") (JStr "g1") Store.initial eq_refl)
    as (_ & (g & Hg & _ & Hid & _) & _).
  exists g. split; [exact Hg|]. exact (Hid eq_refl).
Defined.

Example startGeneration_without_id :
  exists g,
    currentGeneration
      (fst (Store.startGeneration Fixture.noon "u-1" Fixture.bakery
              (Store.Resolved (JObj [("status", JStr "pending")]))
              Store.initial))
    = Some g /\
    GenerationState.id g = JStr "u-1".
Proof. eexists. split; reflexivity. Qed.

(** C10, as stated, fails.  A response whose [generation_id] is present
    and empty yields a session whose id is the UUID, not that field. *)
Lemma startGeneration_empty_generation_id :
  let response := JObj [("generation_id", JStr "")] in
  let r :=
    Store.startGeneration Fixture.noon "u-1" Fixture.bakery
      (Store.Resolved response) Store.initial in
  has_field "generation_id" response = true /\
  exists g,
    currentGeneration (fst r) = Some g /\
    GenerationState.id g = JStr "u-1" /\
    GenerationState.id g <> prop response "generation_id".
Proof.
  split; [reflexivity|].
  eexists. split; [reflexivity|]. split; [reflexivity|].
  simpl. discriminate.
Qed.

(** ** Decoding inbound frames *)

(** C7.  A [progress_update] frame without [progress], [message] and
    [timestamp] is decoded without reaching the [catch] branch, into a
    progress event with progress 0, the empty message and the clock
    reading as timestamp, and that event is handed to [updateProgress]:
    a current session gets overall progress 0. *)
Theorem progress_update_defaults
    (clock : Clock) (w : Native.World) (data : jsval) :
  get data "type" = Some (JStr "progress_update") ->
  has_field "progress" data = false ->
  has_field "message" data = false ->
  has_field "timestamp" data = false ->
  let r := Native.onmessage clock (Some data) w in
  exists p,
    Native.store (Native.world_of r)
      = Store.updateProgress p (Native.store w) /\
    Native.service (Native.world_of r) = Native.service w /\
    GenerationProgress.progress p = zero /\
    GenerationProgress.message p = JStr "" /\
    GenerationProgress.timestamp p = DateAt (clock 0%nat) /\
    GenerationProgress.stepProgress p
      = or_else (prop data "step_progress") zero /\
    GenerationProgress.step p = or_else (prop data "step") (JStr "Unknown") /\
    Native.errors_logged (Native.effects_of r) = [] /\
    (forall current,
       currentGeneration (Native.store w) = Some current ->
       exists updated,
         currentGeneration (Native.store (Native.world_of r)) = Some updated /\
         GenerationState.progress updated = zero /\
         GenerationState.status updated = GenerationState.status current).
Proof.
  intros Htype Hprogress Hmessage Htimestamp.
  apply prop_absent in Hprogress, Hmessage, Htimestamp.
  exists (Native.decode_progress clock (Native.service w) data).
  unfold Native.onmessage. rewrite Htype.
  unfold Native.decode_progress.
  rewrite Hprogress, Hmessage, Htimestamp.
  destruct w as [svc st]. simpl.
  repeat split.
  intros current Hcur. unfold Store.updateProgress. rewrite Hcur.
  eexists. now repeat split.
Qed.

Lemma progress_update_defaults_witness :
  exists updated,
    currentGeneration
      (Native.store
         (Native.world_of
            (Native.onmessage Fixture.noon (Some Fixture.progress_frame)
               Fixture.streaming)))
    = Some updated /\
    GenerationState.progress updated = zero.
Proof.
  destruct (progress_update_defaults Fixture.noon Fixture.streaming
              Fixture.progress_frame eq_refl eq_refl eq_refl eq_refl)
    as (p & _ & _ & _ & _ & _ & _ & _ & _ & Hcur).
  destruct (Hcur (Store.newGeneration Fixture.noon (JStr "g1")
                    Fixture.bakery) eq_refl)
    as (updated & Hup & Hprog & _).
  exists updated. split; [exact Hup|exact Hprog].
Defined.

Example progress_frame_sets_content :
  exists updated,
    currentGeneration
      (Native.store
         (Native.world_of
            (Native.onmessage Fixture.noon (Some Fixture.progress_frame)
               Fixture.streaming)))
    = Some updated /\
    map GenerationStep.status (GenerationState.steps updated)
    = [in_progress; pending; pending; pending] /\
    map GenerationStep.progress (GenerationState.steps updated)
    = [JNum 80%float; zero; zero; zero].
Proof. eexists. repeat split. Qed.

Example completion_frame_finishes_session :
  let frame :=
    JObj [("type", JStr "generation_complete");
          ("final_website", Fixture.website);
          ("quality_score", JNum 92%float)] in
  let w :=
    Native.world_of
      (Native.onmessage Fixture.noon (Some frame)
         (Native.world_of
            (Native.onmessage Fixture.noon (Some Fixture.progress_frame)
               Fixture.streaming))) in
  exists done,
    currentGeneration (Native.store w) = Some done /\
    generationHistory (Native.store w) = [done] /\
    GenerationState.status done = completed /\
    GenerationState.progress done = hundred /\
    map GenerationStep.status (GenerationState.steps done)
    = [completed; completed; completed; completed] /\
    GenerationState.result done
    = Some (JObj [("generationId", JStr "g1");
                  ("websiteData", Fixture.website);
                  ("qualityScore", JNum 92%float)]).
Proof. vm_compute. eexists. repeat split. Qed.

Example unparsable_frame_is_dropped :
  Native.onmessage Fixture.noon None Fixture.streaming
  = (tt, Fixture.streaming,
     [ConsoleError "Error parsing WebSocket message:"]).
Proof. reflexivity. Qed.

Example null_frame_is_dropped :
  Native.world_of
    (Native.onmessage Fixture.noon (Some JNull) Fixture.streaming)
  = Fixture.streaming.
Proof. reflexivity. Qed.

(** ** Reconnection *)

(** Runs a handler on a world whose service fields are variables. *)
Ltac run_handler :=
  cbv [Native.onclose Native.onopen Native.browser_sets
       Native.handleReconnect Native.reconnect_callback Native.connect
       Native.disconnect Native.clear_ping Native.failed_attempt
       Native.bind Native.this Native.emit Native.ret Native.on_store
       Native.set_socket Native.set_pingInterval Native.set_generationId
       Native.set_reconnectAttempts Native.service Native.store
       Native.socket Native.pingInterval Native.reconnectAttempts
       Native.generationId Native.world_of Native.effects_of fst snd].

Section Reconnect.

Local Open Scope Z_scope.

Lemma onclose_retry (clock : Clock) (w : Native.World) :
  0 <= Native.reconnectAttempts (Native.service w) < 5 ->
  let r := Native.onclose clock w in
  Native.timeouts (Native.effects_of r)
    = [1000 * 2 ^ Native.reconnectAttempts (Native.service w)] /\
  Native.reconnectAttempts (Native.service (Native.world_of r))
    = Native.reconnectAttempts (Native.service w) + 1 /\
  currentGeneration (Native.store (Native.world_of r))
    = currentGeneration (Native.store w).
Proof.
  destruct w as [[sock attempts gid ping] st]. simpl. intro Hrange.
  assert (Hlt : (attempts <? Native.maxReconnectAttempts) = true)
    by (apply Z.ltb_lt; unfold Native.maxReconnectAttempts; lia).
  destruct sock as [state|], ping as [timer|];
    run_handler; rewrite Hlt; simpl;
    replace (attempts + 1 - 1) with attempts by lia;
    now repeat split.
Qed.

Lemma onclose_gives_up (clock : Clock) (w : Native.World) :
  Native.reconnectAttempts (Native.service w) = 5 ->
  let r := Native.onclose clock w in
  Native.timeouts (Native.effects_of r) = [] /\
  Native.store (Native.world_of r)
    = Store.failGeneration clock Native.CONNECTION_LOST
        (Store.setWsConnected false (Native.store w)).
Proof.
  destruct w as [[sock attempts gid ping] st]. simpl. intros ->.
  destruct sock as [state|], ping as [timer|];
    run_handler; simpl; now split.
Qed.

Lemma reconnect_callback_keeps (clock : Clock) (env : Native.ConnectEnv)
    (w : Native.World) :
  Native.constructed env = true ->
  let w' := Native.world_of (Native.reconnect_callback clock env w) in
  Native.reconnectAttempts (Native.service w')
    = Native.reconnectAttempts (Native.service w) /\
  currentGeneration (Native.store w') = currentGeneration (Native.store w).
Proof.
  destruct w as [[sock attempts gid ping] st]. simpl. intro Hctor.
  destruct gid as [id|]; [|now split].
  run_handler. destruct (String.eqb id ""); [now split|].
  rewrite Hctor.
  destruct ping as [timer|], sock as [[| | |]|]; simpl; now split.
Qed.

Lemma after_failures_counts (clock : nat -> Clock)
    (env : nat -> Native.ConnectEnv) (w : Native.World) :
  Native.reconnectAttempts (Native.service w) = 0 ->
  (forall k, Native.constructed (env k) = true) ->
  forall n, (n <= 5)%nat ->
    let w' := Native.after_failures clock env n w in
    Native.reconnectAttempts (Native.service w') = Z.of_nat n /\
    currentGeneration (Native.store w') = currentGeneration (Native.store w).
Proof.
  intros Hzero Hctor n. induction n as [|n IH]; intro Hn.
  - simpl. now split.
  - destruct IH as [Hcount Hcur]; [lia|].
    cbn [Native.after_failures]. unfold Native.failed_attempt.
    set (w1 := Native.after_failures clock env n w) in *.
    destruct (onclose_retry (clock (S n)) w1) as (_ & Hcount2 & Hcur2);
      [rewrite Hcount; lia|].
    destruct (reconnect_callback_keeps (clock (S n)) (env (S n))
                (Native.world_of (Native.onclose (clock (S n)) w1))
                (Hctor (S n)))
      as [Hcount3 Hcur3].
    cbv zeta in *. split.
    + rewrite Hcount3, Hcount2, Hcount. lia.
    + now rewrite Hcur3, Hcur2.
Qed.

End Reconnect.

(** C2.  Starting from a channel whose retry counter is 0 (a fresh
    service, or one whose socket has opened), let every reconnect attempt
    end in another closure.  The closure that precedes attempt [n], for
    [n] from 1 to 5, sets exactly one timeout, of [1000 * 2^(n-1)]
    milliseconds; the closure that follows the fifth attempt sets none
    and calls [failGeneration], so that the current session becomes
    [failed] with the error code [CONNECTION_LOST]. *)
Theorem backoff_schedule
    (clock : nat -> Clock) (env : nat -> Native.ConnectEnv)
    (w : Native.World) (g : GenerationState.t) :
  Native.reconnectAttempts (Native.service w) = 0%Z ->
  (forall k, Native.constructed (env k) = true) ->
  currentGeneration (Native.store w) = Some g ->
  (forall n, (1 <= n <= 5)%nat ->
     Native.timeouts
       (Native.effects_of
          (Native.onclose (clock n)
             (Native.after_failures clock env (n - 1) w)))
     = [(1000 * 2 ^ (Z.of_nat n - 1))%Z]) /\
  (let r :=
     Native.onclose (clock 6%nat) (Native.after_failures clock env 5 w) in
   Native.timeouts (Native.effects_of r) = [] /\
   exists g',
     currentGeneration (Native.store (Native.world_of r)) = Some g' /\
     GenerationState.status g' = failed /\
     GenerationState.error g' = Some Native.CONNECTION_LOST /\
     GenerationError.code Native.CONNECTION_LOST = JStr "CONNECTION_LOST").
Proof.
  intros Hzero Hctor Hcur. split.
  - intros n Hn.
    destruct (after_failures_counts clock env w Hzero Hctor (n - 1))
      as [Hcount _]; [lia|].
    destruct (onclose_retry (clock n)
                (Native.after_failures clock env (n - 1) w))
      as (Hdelay & _); [rewrite Hcount; lia|].
    rewrite Hdelay, Hcount. do 3 f_equal. lia.
  - destruct (after_failures_counts clock env w Hzero Hctor 5)
      as [Hcount Hcur5]; [lia|].
    cbv zeta in Hcount, Hcur5.
    set (w5 := Native.after_failures clock env 5 w) in *.
    destruct (onclose_gives_up (clock 6%nat) w5 Hcount) as [Hnone Hstore].
    cbv zeta in Hnone, Hstore |- *. split; [exact Hnone|].
    rewrite Hstore. unfold Store.failGeneration, Store.setWsConnected.
    cbn [currentGeneration]. rewrite Hcur5, Hcur.
    eexists. now repeat split.
Qed.

Lemma backoff_schedule_witness :
  map (fun n =>
         Native.timeouts
           (Native.effects_of
              (Native.onclose (Fixture.every_clock n)
                 (Native.after_failures Fixture.every_clock
                    Fixture.every_env (n - 1) Fixture.streaming))))
      [1; 2; 3; 4; 5]%nat
  = [[1000]; [2000]; [4000]; [8000]; [16000]]%Z.
Proof.
  destruct (backoff_schedule Fixture.every_clock Fixture.every_env
              Fixture.streaming
              (Store.newGeneration Fixture.noon (JStr "g1") Fixture.bakery)
              eq_refl (fun _ => eq_refl) eq_refl) as [Hdelays _].
  cbn [map].
  rewrite !Hdelays by lia. reflexivity.
Defined.

Example sixth_closure_fails_session :
  exists g',
    currentGeneration
      (Native.store
         (Native.world_of
            (Native.onclose Fixture.noon
               (Native.after_failures Fixture.every_clock Fixture.every_env
                  5 Fixture.streaming))))
    = Some g' /\
    GenerationState.status g' = failed /\
    GenerationState.error g' = Some Native.CONNECTION_LOST /\
    isGenerating
      (Native.store
         (Native.world_of
            (Native.onclose Fixture.noon
               (Native.after_failures Fixture.every_clock Fixture.every_env
                  5 Fixture.streaming))))
    = false.
Proof. vm_compute. eexists. repeat split. Qed.

Example opened_resets_counter :
  Native.reconnectAttempts
    (Native.service
       (Native.world_of
          (Native.onopen
             (Native.after_failures Fixture.every_clock Fixture.every_env
                3 Fixture.streaming))))
  = 0%Z.
Proof. vm_compute. reflexivity. Qed.

(** * Further properties of the channel *)

(** Unfolds every handler of the channel. *)
Ltac run_event :=
  cbv [Native.handle Native.onmessage Native.parse_failure Native.onerror
       Native.sendPing Native.sendMessage];
  run_handler.

(** Splits on the tests a handler makes. *)
Ltac split_tests :=
  repeat match goal with
         | |- context [if ?c then _ else _] => destruct c eqn:?
         | |- context [match ?c with Some _ => _ | None => _ end] =>
             destruct c eqn:?
         end.

Section ChannelInvariants.

Local Open Scope Z_scope.

Lemma delay_in_schedule (a : Z) :
  0 <= a < 5 -> In (Native.reconnectInterval * 2 ^ (a + 1 - 1))
                   Channel.schedule.
Proof.
  intro H. replace (a + 1 - 1) with a by lia.
  assert (Ha : a = 0 \/ a = 1 \/ a = 2 \/ a = 3 \/ a = 4) by lia.
  unfold Channel.schedule, Native.reconnectInterval.
  destruct Ha as [-> | [-> | [-> | [-> | ->]]]]; simpl; tauto.
Qed.

Lemma onmessage_quiet (clock : Clock) (parsed : option jsval)
    (w : Native.World) :
  let r := Native.onmessage clock parsed w in
  Native.service (Native.world_of r) = Native.service w /\
  Native.timeouts (Native.effects_of r) = [] /\
  Channel.sent (Native.effects_of r) = [] /\
  Channel.closes (Native.effects_of r) = 0%nat /\
  forall live, Channel.intervals (Native.effects_of r) live = live.
Proof.
  destruct w as [svc st]. unfold Native.onmessage.
  destruct parsed as [data|]; [|now repeat split].
  destruct (get data "type") as [type|]; [|now repeat split].
  run_event. split_tests; now repeat split.
Qed.

Lemma handle_bounded (clock : Clock) (ev : Native.Event) (w : Native.World) :
  Channel.bounded w ->
  let r := Native.handle clock ev w in
  Channel.bounded (Native.world_of r) /\
  Forall (fun d => In d Channel.schedule)
         (Native.timeouts (Native.effects_of r)).
Proof.
  unfold Channel.bounded. intro Hb.
  destruct ev as [id env| | | | |parsed|env| ].
  6: { destruct (onmessage_quiet clock parsed w) as (Hsvc & Ht & _).
       cbv zeta in *. simpl Native.handle. rewrite Hsvc, Ht.
       split; [exact Hb|constructor]. }
  all: destruct w as [[[[| | |]|] attempts gid [timer|]] st]; simpl in Hb.
  all: run_event; split_tests; cbn [Native.timeouts app];
    rewrite ?Z.ltb_lt, ?Z.ltb_ge in *;
    unfold Native.maxReconnectAttempts in *;
    (split; [lia|]);
    first [ apply Forall_nil
          | apply Forall_cons;
            [apply delay_in_schedule; lia | apply Forall_nil] ].
Qed.

End ChannelInvariants.

Lemma timeouts_app (e1 e2 : list Effect) :
  Native.timeouts (e1 ++ e2) = Native.timeouts e1 ++ Native.timeouts e2.
Proof.
  induction e1 as [|e e1 IH]; [reflexivity|].
  destruct e; simpl; now rewrite IH.
Qed.

Lemma intervals_app (e1 e2 : list Effect) :
  forall live,
    Channel.intervals (e1 ++ e2) live
    = Channel.intervals e2 (Channel.intervals e1 live).
Proof.
  induction e1 as [|e e1 IH]; intro live; [reflexivity|].
  destruct e; simpl; apply IH.
Qed.

Lemma handle_intervals (clock : Clock) (ev : Native.Event)
    (w : Native.World) :
  let r := Native.handle clock ev w in
  Channel.intervals (Native.effects_of r) (Channel.recorded (Native.service w))
  = Channel.recorded (Native.service (Native.world_of r)).
Proof.
  destruct ev as [id env| | | | |parsed|env| ].
  6: { destruct (onmessage_quiet clock parsed w) as (Hsvc & _ & _ & _ & Hi).
       cbv zeta in *. simpl Native.handle. now rewrite Hsvc, Hi. }
  all: destruct w as [[[[| | |]|] attempts gid [timer|]] st].
  all: run_event; split_tests;
    cbn [Channel.intervals Channel.recorded Channel.without filter app negb
         Native.pingInterval];
    rewrite ?Nat.eqb_refl; reflexivity.
Qed.

(** X1.  Whatever has happened to the channel, the retry counter stays
    between 0 and 5 and every timeout that a handler sets is one of
    1000, 2000, 4000, 8000 and 16000 milliseconds. *)
Theorem retry_counter_bounded
    (evs : list (Clock * Native.Event)) (w : Native.World) :
  Channel.bounded w ->
  Channel.bounded (fst (Channel.run evs w)) /\
  Forall (fun d => In d Channel.schedule)
         (Native.timeouts (snd (Channel.run evs w))).
Proof.
  revert w. induction evs as [|[clock ev] evs IH]; intros w Hb.
  - split; [exact Hb|constructor].
  - destruct (handle_bounded clock ev w Hb) as [Hb1 Ht1].
    cbv zeta in Hb1, Ht1. simpl.
    destruct (Native.handle clock ev w) as [[u w1] e1].
    unfold Native.world_of, Native.effects_of in Hb1, Ht1. simpl in Hb1, Ht1.
    destruct (IH w1 Hb1) as [Hb2 Ht2].
    destruct (Channel.run evs w1) as [w2 e2]. simpl in *.
    split; [exact Hb2|].
    rewrite timeouts_app. apply Forall_app. now split.
Qed.

Lemma retry_counter_bounded_witness :
  Channel.bounded
    (fst (Channel.run
            [(Fixture.noon, Native.Closed);
             (Fixture.noon, Native.ReconnectTimer (Fixture.every_env 1));
             (Fixture.noon, Native.Closed)]
            Fixture.streaming)).
Proof.
  apply (retry_counter_bounded
           [(Fixture.noon, Native.Closed);
            (Fixture.noon, Native.ReconnectTimer (Fixture.every_env 1));
            (Fixture.noon, Native.Closed)]
           Fixture.streaming).
  unfold Channel.bounded. simpl. lia.
Defined.

(** X2.  The service never leaves an interval running that it has
    forgotten: over any sequence of events, the intervals started and
    not yet cleared are exactly the one held in [pingInterval], so at
    most one ping interval runs at a time. *)
Theorem ping_interval_accounted
    (evs : list (Clock * Native.Event)) (w : Native.World) :
  let r := Channel.run evs w in
  Channel.intervals (snd r) (Channel.recorded (Native.service w))
  = Channel.recorded (Native.service (fst r)) /\
  (List.length
     (Channel.intervals (snd r) (Channel.recorded (Native.service w)))
   <= 1)%nat.
Proof.
  cbv zeta.
  assert (H : Channel.intervals (snd (Channel.run evs w))
                (Channel.recorded (Native.service w))
              = Channel.recorded (Native.service (fst (Channel.run evs w)))).
  { revert w. induction evs as [|[clock ev] evs IH]; intro w; [reflexivity|].
    pose proof (handle_intervals clock ev w) as H1. cbv zeta in H1. simpl.
    destruct (Native.handle clock ev w) as [[u w1] e1].
    unfold Native.world_of, Native.effects_of in H1. simpl in H1.
    specialize (IH w1).
    destruct (Channel.run evs w1) as [w2 e2]. simpl in *.
    now rewrite intervals_app, H1. }
  split; [exact H|]. rewrite H. unfold Channel.recorded.
  destruct (Native.pingInterval _); simpl; lia.
Qed.

(** X3.  [disconnect] forgets the socket and the ping interval, closes
    the socket only if it was open or still connecting, and keeps the
    generation id and the retry counter; a second [disconnect] right
    after it changes nothing and has no effect at all. *)
Theorem disconnect_idempotent (w : Native.World) :
  let r := Native.disconnect w in
  let w1 := Native.world_of r in
  Native.disconnect w1 = (tt, w1, []) /\
  Native.socket (Native.service w1) = None /\
  Native.pingInterval (Native.service w1) = None /\
  Native.generationId (Native.service w1)
    = Native.generationId (Native.service w) /\
  Native.reconnectAttempts (Native.service w1)
    = Native.reconnectAttempts (Native.service w) /\
  Channel.closes (Native.effects_of r)
    = match Native.socket (Native.service w) with
      | Some Native.OPEN | Some Native.CONNECTING => 1%nat
      | _ => 0%nat
      end /\
  Native.store w1
    = match Native.socket (Native.service w) with
      | Some _ => Store.setWsConnected false (Native.store w)
      | None => Native.store w
      end.
Proof.
  destruct w as [[[[| | |]|] attempts gid [timer|]] st];
    run_handler; now repeat split.
Qed.

(** X4.  [disconnect] does not stop the channel from reconnecting: the
    close event of the socket it has just closed still reaches
    [handleReconnect], which sets a timeout, and when that expires the
    service opens a new socket for the same generation id. *)
Theorem disconnect_then_close_reconnects
    (clock : Clock) (env : Native.ConnectEnv) (w : Native.World)
    (id : string) :
  Native.socket (Native.service w) = Some Native.OPEN ->
  Native.generationId (Native.service w) = Some id ->
  id <> "" ->
  (0 <= Native.reconnectAttempts (Native.service w) < 5)%Z ->
  Native.constructed env = true ->
  let r :=
    Channel.run [(clock, Native.Disconnect); (clock, Native.Closed);
                 (clock, Native.ReconnectTimer env)] w in
  Channel.closes (snd r) = 1%nat /\
  Native.timeouts (snd r)
    = [(1000 * 2 ^ Native.reconnectAttempts (Native.service w))%Z] /\
  Native.socket (Native.service (fst r)) = Some Native.CONNECTING /\
  Native.generationId (Native.service (fst r)) = Some id /\
  Native.pingInterval (Native.service (fst r)) = Some (Native.timer env).
Proof.
  destruct w as [[sock attempts gid ping] st]. simpl.
  intros -> -> Hid Hrange Hctor.
  assert (Hlt : (attempts <? Native.maxReconnectAttempts)%Z = true)
    by (apply Z.ltb_lt; unfold Native.maxReconnectAttempts; lia).
  apply String.eqb_neq in Hid.
  destruct ping as [timer|];
    run_event; rewrite Hlt; run_event; rewrite Hid, Hctor; simpl;
    replace (attempts + 1 - 1)%Z with attempts by lia;
    now repeat split.
Qed.

Lemma disconnect_then_close_reconnects_witness :
  Native.socket
    (Native.service
       (fst (Channel.run
               [(Fixture.noon, Native.Disconnect);
                (Fixture.noon, Native.Closed);
                (Fixture.noon, Native.ReconnectTimer (Fixture.every_env 9))]
               Fixture.streaming)))
  = Some Native.CONNECTING.
Proof.
  apply (disconnect_then_close_reconnects Fixture.noon (Fixture.every_env 9)
           Fixture.streaming "g1" eq_refl eq_refl).
  - discriminate.
  - simpl. lia.
  - reflexivity.
Defined.

(** X5.  A frame never touches the service object, never closes or
    writes to the socket and never sets a timeout; a frame that cannot
    be parsed, that is [null], or whose [type] is none of
    [progress_update], [generation_complete] and [error] leaves the
    store as it is. *)
Theorem onmessage_locality
    (clock : Clock) (parsed : option jsval) (w : Native.World) :
  let r := Native.onmessage clock parsed w in
  Native.service (Native.world_of r) = Native.service w /\
  Native.timeouts (Native.effects_of r) = [] /\
  Channel.sent (Native.effects_of r) = [] /\
  Channel.closes (Native.effects_of r) = 0%nat /\
  wsConnected (Native.store (Native.world_of r))
    = wsConnected (Native.store w) /\
  match parsed with
  | None => Native.world_of r = w
  | Some data =>
      match get data "type" with
      | None => Native.world_of r = w
      | Some type =>
          Channel.store_frame type = false -> Native.world_of r = w
      end
  end.
Proof.
  destruct (onmessage_quiet clock parsed w) as (Hsvc & Ht & Hs & Hc & _).
  cbv zeta in *. do 4 (split; [assumption|]).
  destruct w as [svc st]. unfold Native.onmessage, Channel.store_frame.
  destruct parsed as [data|]; [|now split].
  destruct (get data "type") as [type|]; [|now split].
  run_event. split.
  - split_tests; simpl; try reflexivity.
    + apply updateProgress_frame.
    + unfold Store.completeGeneration. now destruct (currentGeneration st).
    + unfold Store.failGeneration. now destruct (currentGeneration st).
  - intro Hnone. apply orb_false_iff in Hnone as [Hnone He].
    apply orb_false_iff in Hnone as [Hp Hc'].
    rewrite Hp, Hc', He. now split_tests.
Qed.

Lemma onmessage_locality_witness :
  Native.world_of
    (Native.onmessage Fixture.noon
       (Some (JObj [("type", JStr "agent_progress")])) Fixture.streaming)
  = Fixture.streaming.
Proof.
  apply (onmessage_locality Fixture.noon
           (Some (JObj [("type", JStr "agent_progress")]))
           Fixture.streaming).
  reflexivity.
Defined.

(** X6.  An [error] frame without [message], [code] and [details] fails
    the current session with the message "Unknown error", the code
    "ERROR" and empty details, and clears [isGenerating]; the phases and
    the history are not touched. *)
Theorem error_frame_defaults
    (clock : Clock) (w : Native.World) (data : jsval)
    (current : GenerationState.t) :
  get data "type" = Some (JStr "error") ->
  has_field "message" data = false ->
  has_field "code" data = false ->
  has_field "details" data = false ->
  currentGeneration (Native.store w) = Some current ->
  let r := Native.onmessage clock (Some data) w in
  let unknown :=
    GenerationError.mk (JStr "Unknown error") (JStr "ERROR") (JStr "") in
  Native.store (Native.world_of r)
    = Store.failGeneration clock unknown (Native.store w) /\
  exists g',
    currentGeneration (Native.store (Native.world_of r)) = Some g' /\
    GenerationState.status g' = failed /\
    GenerationState.error g' = Some unknown /\
    GenerationState.steps g' = GenerationState.steps current /\
    isGenerating (Native.store (Native.world_of r)) = false /\
    generationHistory (Native.store (Native.world_of r))
      = generationHistory (Native.store w).
Proof.
  intros Htype Hm Hc Hd Hcur.
  apply prop_absent in Hm, Hc, Hd.
  unfold Native.onmessage. rewrite Htype.
  destruct w as [svc st]. simpl in Hcur.
  run_event. simpl. unfold Native.decode_error. rewrite Hm, Hc, Hd.
  split; [reflexivity|].
  unfold Store.failGeneration. rewrite Hcur. simpl.
  eexists. now repeat split.
Qed.

Lemma error_frame_defaults_witness :
  exists g',
    currentGeneration
      (Native.store
         (Native.world_of
            (Native.onmessage Fixture.noon
               (Some (JObj [("type", JStr "error")])) Fixture.streaming)))
    = Some g' /\
    GenerationState.status g' = failed.
Proof.
  destruct (error_frame_defaults Fixture.noon Fixture.streaming
              (JObj [("type", JStr "error")])
              (Store.newGeneration Fixture.noon (JStr "g1") Fixture.bakery)
              eq_refl eq_refl eq_refl eq_refl eq_refl)
    as (_ & g' & Hg' & Hst & _).
  exists g'. now split.
Defined.

(** X7.  A [generation_complete] frame without [generation_id],
    [final_website] and [quality_score] completes the current session
    with a result made of the service's own generation id, an empty
    website object and the quality score 0. *)
Theorem complete_frame_defaults
    (clock : Clock) (w : Native.World) (data : jsval) (id : string)
    (current : GenerationState.t) :
  get data "type" = Some (JStr "generation_complete") ->
  has_field "generation_id" data = false ->
  has_field "final_website" data = false ->
  has_field "quality_score" data = false ->
  Native.generationId (Native.service w) = Some id ->
  id <> "" ->
  currentGeneration (Native.store w) = Some current ->
  let r := Native.onmessage clock (Some data) w in
  let result :=
    JObj [("generationId", JStr id); ("websiteData", JObj []);
          ("qualityScore", zero)] in
  Native.store (Native.world_of r)
    = Store.completeGeneration clock result (Native.store w) /\
  exists done,
    currentGeneration (Native.store (Native.world_of r)) = Some done /\
    GenerationState.status done = completed /\
    GenerationState.result done = Some result.
Proof.
  intros Htype Hg Hf Hq Hid Hne Hcur.
  apply prop_absent in Hg, Hf, Hq. apply String.eqb_neq in Hne.
  unfold Native.onmessage. rewrite Htype.
  destruct w as [svc st]. simpl in Hcur, Hid.
  run_event. simpl.
  unfold Native.decode_complete, Native.this_generationId.
  rewrite Hg, Hf, Hq, Hid.
  assert (Hor : or_else JUndefined (or_else (JStr id) (JStr "")) = JStr id).
  { unfold or_else. simpl. now rewrite Hne. }
  rewrite Hor. split; [reflexivity|].
  unfold Store.completeGeneration. rewrite Hcur. simpl.
  eexists. now repeat split.
Qed.

Lemma complete_frame_defaults_witness :
  exists done,
    currentGeneration
      (Native.store
         (Native.world_of
            (Native.onmessage Fixture.noon
               (Some (JObj [("type", JStr "generation_complete")]))
               Fixture.streaming)))
    = Some done /\
    GenerationState.result done
    = Some (JObj [("generationId", JStr "g1"); ("websiteData", JObj []);
                  ("qualityScore", zero)]).
Proof.
  assert (Hne : "g1" <> "") by discriminate.
  destruct (complete_frame_defaults Fixture.noon Fixture.streaming
              (JObj [("type", JStr "generation_complete")]) "g1"
              (Store.newGeneration Fixture.noon (JStr "g1") Fixture.bakery)
              eq_refl eq_refl eq_refl eq_refl eq_refl Hne eq_refl)
    as (_ & done & Hdone & _ & Hres).
  exists done. now split.
Defined.

(** X8.  An [open] event restarts the back-off: whatever the retry
    counter was, the closure that follows it waits 1000 milliseconds and
    counts as the first attempt. *)
Theorem open_restarts_backoff (clock : Clock) (w : Native.World) :
  let r := Channel.run [(clock, Native.Opened); (clock, Native.Closed)] w in
  Native.timeouts (snd r) = [1000%Z] /\
  Native.reconnectAttempts (Native.service (fst r)) = 1%Z /\
  wsConnected (Native.store (fst r)) = false /\
  currentGeneration (Native.store (fst r))
    = currentGeneration (Native.store w).
Proof.
  destruct w as [[[[| | |]|] attempts gid [timer|]] st];
    run_event; simpl; now repeat split.
Qed.

Lemma onclose_exhausted (clock : Clock) (w : Native.World) :
  Native.reconnectAttempts (Native.service w) = 5%Z ->
  let r := Native.onclose clock w in
  Native.timeouts (Native.effects_of r) = [] /\
  Native.reconnectAttempts (Native.service (Native.world_of r)) = 5%Z /\
  Native.store (Native.world_of r)
    = Store.failGeneration clock Native.CONNECTION_LOST
        (Store.setWsConnected false (Native.store w)).
Proof.
  destruct w as [[[[| | |]|] attempts gid [timer|]] st]; simpl; intros ->;
    run_handler; now repeat split.
Qed.

Lemma closures_exhausted (clocks : list Clock) :
  forall w g,
    Native.reconnectAttempts (Native.service w) = 5%Z ->
    currentGeneration (Native.store w) = Some g ->
    let r := Channel.run (Channel.closures clocks) w in
    Native.timeouts (snd r) = [] /\
    Native.reconnectAttempts (Native.service (fst r)) = 5%Z /\
    exists g',
      currentGeneration (Native.store (fst r)) = Some g' /\
      GenerationState.steps g' = GenerationState.steps g /\
      (clocks = [] -> g' = g) /\
      (clocks <> [] ->
       GenerationState.status g' = failed /\
       GenerationState.error g' = Some Native.CONNECTION_LOST).
Proof.
  induction clocks as [|clock clocks IH]; intros w g H5 Hcur.
  - simpl. repeat split; try assumption.
    exists g. repeat split; try assumption; contradiction.
  - destruct (onclose_exhausted clock w H5) as (Ht & H5' & Hst).
    cbv zeta in Ht, H5', Hst |- *. simpl.
    destruct (Native.onclose clock w) as [[u w1] e1].
    unfold Native.world_of, Native.effects_of in *. simpl in Ht, H5', Hst.
    assert (Hcur1 : currentGeneration (Native.store w1)
                    = Some (Store.failedGeneration clock
                              Native.CONNECTION_LOST g)).
    { rewrite Hst. unfold Store.failGeneration. simpl. now rewrite Hcur. }
    destruct (IH w1 _ H5' Hcur1)
      as (Ht2 & H52 & g' & Hg' & Hsteps & Hsame & Hfail).
    cbv zeta in Ht2, H52, Hg'.
    destruct (Channel.run (Channel.closures clocks) w1) as [w2 e2].
    simpl in *. rewrite timeouts_app, Ht, Ht2.
    repeat split; try assumption.
    exists g'. split; [assumption|]. split; [assumption|].
    split; [discriminate|]. intros _.
    destruct clocks as [|c clocks'].
    + rewrite (Hsame eq_refl). now split.
    + apply Hfail. discriminate.
Qed.

(** X9.  Once the five attempts are used up the channel never retries
    again: every further closure sets no timeout, leaves the counter at
    5, and fails the current session with [CONNECTION_LOST], keeping its
    phases. *)
Theorem exhausted_channel_stays_down
    (clocks : list Clock) (w : Native.World) (g : GenerationState.t) :
  Native.reconnectAttempts (Native.service w) = 5%Z ->
  currentGeneration (Native.store w) = Some g ->
  let r := Channel.run (Channel.closures clocks) w in
  Native.timeouts (snd r) = [] /\
  Native.reconnectAttempts (Native.service (fst r)) = 5%Z /\
  exists g',
    currentGeneration (Native.store (fst r)) = Some g' /\
    GenerationState.steps g' = GenerationState.steps g /\
    (clocks <> [] ->
     GenerationState.status g' = failed /\
     GenerationState.error g' = Some Native.CONNECTION_LOST).
Proof.
  intros H5 Hcur.
  destruct (closures_exhausted clocks w g H5 Hcur)
    as (Ht & H5' & g' & Hg' & Hsteps & _ & Hfail).
  cbv zeta in *. split; [exact Ht|]. split; [exact H5'|].
  exists g'. split; [exact Hg'|]. split; [exact Hsteps|exact Hfail].
Qed.

Lemma exhausted_channel_stays_down_witness :
  Native.timeouts
    (snd (Channel.run (Channel.closures [Fixture.noon; Fixture.noon])
            (Native.after_failures Fixture.every_clock Fixture.every_env 5
               Fixture.streaming)))
  = [].
Proof.
  apply (exhausted_channel_stays_down [Fixture.noon; Fixture.noon]
           (Native.after_failures Fixture.every_clock Fixture.every_env 5
              Fixture.streaming)
           (Store.newGeneration Fixture.noon (JStr "g1") Fixture.bakery)).
  - vm_compute. reflexivity.
  - vm_compute. reflexivity.
Defined.

(** X10.  When [new WebSocket] throws, [connect] leaves the service
    without a socket and without a ping interval, logs the failure, and
    goes straight to [handleReconnect]: while attempts are left the
    counter goes up by one and a timeout of [1000 * 2^attempts] is
    set. *)
Theorem connect_failure_schedules_retry
    (clock : Clock) (env : Native.ConnectEnv) (id : string)
    (w : Native.World) :
  Native.constructed env = false ->
  (0 <= Native.reconnectAttempts (Native.service w) < 5)%Z ->
  let r := Native.connect clock env id w in
  Native.socket (Native.service (Native.world_of r)) = None /\
  Native.pingInterval (Native.service (Native.world_of r)) = None /\
  Native.generationId (Native.service (Native.world_of r)) = Some id /\
  Native.reconnectAttempts (Native.service (Native.world_of r))
    = (Native.reconnectAttempts (Native.service w) + 1)%Z /\
  Native.timeouts (Native.effects_of r)
    = [(1000 * 2 ^ Native.reconnectAttempts (Native.service w))%Z] /\
  Native.errors_logged (Native.effects_of r)
    = ["Failed to connect to WebSocket:"] /\
  currentGeneration (Native.store (Native.world_of r))
    = currentGeneration (Native.store w).
Proof.
  intros Hctor Hrange.
  destruct w as [[[[| | |]|] attempts gid [timer|]] st]; simpl in Hrange.
  all: assert (Hlt : (attempts <? Native.maxReconnectAttempts)%Z = true)
    by (apply Z.ltb_lt; unfold Native.maxReconnectAttempts; lia).
  all: run_handler; rewrite Hctor; run_handler; rewrite Hlt; simpl;
    replace (attempts + 1 - 1)%Z with attempts by lia;
    now repeat split.
Qed.

Lemma connect_failure_schedules_retry_witness :
  Native.timeouts
    (Native.effects_of
       (Native.connect Fixture.noon
          {| Native.constructed := false; Native.timer := 3%nat |}
          "g1" Fixture.streaming))
  = [1000%Z].
Proof.
  apply (connect_failure_schedules_retry Fixture.noon
           {| Native.constructed := false; Native.timer := 3%nat |}
           "g1" Fixture.streaming eq_refl).
  simpl. lia.
Defined.

(** * Further properties of the store *)

(** X11.  With a current session, [failGeneration] sets its status to
    [failed], attaches the error and stamps [completedAt], and clears
    [isGenerating]; the phases, the overall progress, an earlier result,
    the id and the history are left as they are.  Without a current
    session it changes nothing. *)
Theorem failGeneration_postcondition
    (clock : Clock) (error : GenerationError.t) (s : GenerationSlice) :
  let s' := Store.failGeneration clock error s in
  match currentGeneration s with
  | None => s' = s
  | Some current =>
      exists g',
        currentGeneration s' = Some g' /\
        GenerationState.status g' = failed /\
        GenerationState.error g' = Some error /\
        GenerationState.completedAt g' = Some (DateAt (clock 0%nat)) /\
        GenerationState.steps g' = GenerationState.steps current /\
        GenerationState.progress g' = GenerationState.progress current /\
        GenerationState.result g' = GenerationState.result current /\
        GenerationState.id g' = GenerationState.id current /\
        GenerationState.startedAt g' = GenerationState.startedAt current /\
        isGenerating s' = false /\
        generationHistory s' = generationHistory s /\
        wsConnected s' = wsConnected s
  end.
Proof.
  unfold Store.failGeneration.
  destruct (currentGeneration s) as [current|]; simpl; [|reflexivity].
  eexists. now repeat split.
Qed.

Lemma update_step_overwrites (p1 p2 : GenerationProgress.t)
    (st : GenerationStep.t) :
  GenerationProgress.step p1 = GenerationProgress.step p2 ->
  Store.update_step p2 (Store.update_step p1 st) = Store.update_step p2 st.
Proof.
  intro Hsame. unfold Store.update_step. rewrite Hsame.
  destruct (str_strict_eq (GenerationStep.id st) (GenerationProgress.step p2))
    eqn:E; simpl; rewrite E; reflexivity.
Qed.

Lemma update_step_commutes (p1 p2 : GenerationProgress.t)
    (st : GenerationStep.t) :
  GenerationProgress.step p1 <> GenerationProgress.step p2 ->
  Store.update_step p2 (Store.update_step p1 st)
  = Store.update_step p1 (Store.update_step p2 st).
Proof.
  intro Hdiff. unfold Store.update_step.
  destruct (str_strict_eq (GenerationStep.id st) (GenerationProgress.step p1))
    eqn:E1;
    destruct (str_strict_eq (GenerationStep.id st)
                (GenerationProgress.step p2)) eqn:E2;
    simpl; rewrite ?E1, ?E2; try reflexivity.
  apply str_strict_eq_true in E1, E2. congruence.
Qed.

(** X12.  Progress events for the same step overwrite each other: the
    store after two of them is the store after the second alone, and in
    particular applying one event twice is the same as applying it
    once. *)
Theorem progress_last_writer_wins
    (p1 p2 : GenerationProgress.t) (s : GenerationSlice) :
  GenerationProgress.step p1 = GenerationProgress.step p2 ->
  Store.updateProgress p2 (Store.updateProgress p1 s)
  = Store.updateProgress p2 s.
Proof.
  intro Hsame. unfold Store.updateProgress.
  destruct (currentGeneration s) as [current|] eqn:E; simpl.
  - unfold Store.set_currentGeneration. simpl. do 2 f_equal.
    f_equal. rewrite map_map. apply map_ext.
    intro st. now apply update_step_overwrites.
  - now rewrite E.
Qed.

Lemma progress_last_writer_wins_witness :
  Store.updateProgress Fixture.content_80
    (Store.updateProgress Fixture.content_80 Fixture.started)
  = Store.updateProgress Fixture.content_80 Fixture.started.
Proof.
  apply (progress_last_writer_wins Fixture.content_80 Fixture.content_80
           Fixture.started eq_refl).
Defined.

(** X13.  Progress events for different steps commute on the phases:
    in either order the phase list ends up the same; only the overall
    progress is that of the event applied last. *)
Theorem progress_commutes_on_phases
    (p1 p2 : GenerationProgress.t) (s : GenerationSlice)
    (current : GenerationState.t) :
  GenerationProgress.step p1 <> GenerationProgress.step p2 ->
  currentGeneration s = Some current ->
  exists g12 g21,
    currentGeneration (Store.updateProgress p2 (Store.updateProgress p1 s))
    = Some g12 /\
    currentGeneration (Store.updateProgress p1 (Store.updateProgress p2 s))
    = Some g21 /\
    GenerationState.steps g12 = GenerationState.steps g21 /\
    GenerationState.progress g12 = GenerationProgress.progress p2 /\
    GenerationState.progress g21 = GenerationProgress.progress p1 /\
    GenerationState.status g12 = GenerationState.status g21.
Proof.
  intros Hdiff Hcur. unfold Store.updateProgress. rewrite Hcur. simpl.
  do 2 eexists. do 2 (split; [reflexivity|]). simpl.
  repeat split.
  rewrite !map_map. apply map_ext.
  intro st. now apply update_step_commutes.
Qed.

Lemma progress_commutes_on_phases_witness :
  exists g12 g21,
    currentGeneration
      (Store.updateProgress Fixture.unknown_phase
         (Store.updateProgress Fixture.content_80 Fixture.started))
    = Some g12 /\
    currentGeneration
      (Store.updateProgress Fixture.content_80
         (Store.updateProgress Fixture.unknown_phase Fixture.started))
    = Some g21 /\
    GenerationState.steps g12 = GenerationState.steps g21.
Proof.
  assert (Hdiff : GenerationProgress.step Fixture.content_80
                  <> GenerationProgress.step Fixture.unknown_phase)
    by discriminate.
  destruct (progress_commutes_on_phases Fixture.content_80
              Fixture.unknown_phase Fixture.started
              (Store.newGeneration Fixture.noon (JStr "g1") Fixture.bakery)
              Hdiff eq_refl)
    as (g12 & g21 & H12 & H21 & Hsteps & _).
  exists g12, g21. now repeat split.
Defined.

Lemma update_step_untouched (p : GenerationProgress.t)
    (st : GenerationStep.t) :
  Phases.untouched st -> Phases.untouched (Store.update_step p st).
Proof.
  unfold Phases.untouched, Store.update_step. intros (Hs & Ha & He).
  destruct (str_strict_eq _ _); simpl; repeat split;
    try assumption; discriminate.
Qed.

Lemma complete_steps_untouched (clock : Clock) (l : list GenerationStep.t) :
  Forall Phases.untouched l ->
  forall k, Forall Phases.untouched (map_from (Store.complete_step clock) k l).
Proof.
  induction 1 as [|st l (Hs & Ha & He) _ IH]; intro k; simpl;
    constructor; [|apply IH].
  unfold Phases.untouched. simpl. repeat split; try assumption; discriminate.
Qed.

Lemma newGeneration_wellformed (clock : Clock) (id : jsval)
    (businessData : BusinessData) :
  Phases.wellformed (Store.newGeneration clock id businessData).
Proof.
  repeat split; simpl;
    repeat (constructor; [repeat split; discriminate|]); constructor.
Qed.

Lemma step_wellformed (clock : Clock) (op : Run.Op) (s : GenerationSlice) :
  Phases.current_wellformed s ->
  Phases.current_wellformed (Run.step clock op s).
Proof.
  unfold Phases.current_wellformed. intros H g.
  destruct op as [bd outcome uuid| |bd outcome uuid|p|result|error
                 |outcome| |connected];
    simpl.
  - unfold Store.startGeneration, Store.startGeneration_resume.
    destruct outcome as [response|apiError]; [|apply H].
    destruct (get response "generation_id"); simpl; [|apply H].
    intro E. injection E as <-. apply newGeneration_wellformed.
  - apply H.
  - unfold Store.startGeneration_resume.
    destruct outcome as [response|apiError]; [|apply H].
    destruct (get response "generation_id"); simpl; [|apply H].
    intro E. injection E as <-. apply newGeneration_wellformed.
  - unfold Store.updateProgress.
    destruct (currentGeneration s) as [current|] eqn:E;
      [|simpl; rewrite E; discriminate].
    simpl. intro E'. injection E' as <-.
    destruct (H current eq_refl) as (Hids & Hnames & Hall).
    unfold Phases.wellformed, Phases.ids, Phases.names in *. simpl.
    split; [now rewrite update_steps_ids|]. split.
    + rewrite map_map, <- Hnames. apply map_ext. apply update_step_name.
    + apply Forall_map. eapply Forall_impl; [|exact Hall].
      intro st. apply update_step_untouched.
  - unfold Store.completeGeneration.
    destruct (currentGeneration s) as [current|] eqn:E;
      [|simpl; rewrite E; discriminate].
    simpl. intro E'. injection E' as <-.
    destruct (H current eq_refl) as (Hids & Hnames & Hall).
    unfold Phases.wellformed, Phases.ids, Phases.names in *. simpl.
    split; [now rewrite (map_from_map _ _ GenerationStep.id)|].
    split; [now rewrite (map_from_map _ _ GenerationStep.name)|].
    now apply complete_steps_untouched.
  - unfold Store.failGeneration.
    destruct (currentGeneration s) as [current|] eqn:E;
      [|simpl; rewrite E; discriminate].
    simpl. intro E'. injection E' as <-.
    exact (H current eq_refl).
  - unfold Store.cancelGeneration_run, Store.cancelGeneration.
    destruct (currentGeneration s) as [current|] eqn:E;
      [|simpl; rewrite E; discriminate].
    destruct outcome; simpl; discriminate.
  - discriminate.
  - apply H.
Qed.

(** X14.  The phase set of a tracked session is fixed for life: in
    every store reachable from the initial one the current session has
    the four phases content, design, structure and quality, in that
    order and under their original names, and no phase is ever [failed],
    carries an error or has a start time. *)
Theorem phases_fixed_for_life
    (ops : list (Clock * Run.Op)) (g : GenerationState.t) :
  currentGeneration (Run.run ops Store.initial) = Some g ->
  Phases.wellformed g.
Proof.
  assert (H : forall s, Phases.current_wellformed s ->
                        Phases.current_wellformed (Run.run ops s)).
  { induction ops as [|[clock op] ops IH]; simpl; intros s Hs; [exact Hs|].
    apply IH. now apply step_wellformed. }
  apply (H Store.initial). intros g0 H0. discriminate H0.
Qed.

Lemma phases_fixed_for_life_witness :
  Phases.wellformed
    (Store.failedGeneration Fixture.noon Fixture.server_error
       (Store.newGeneration Fixture.noon (JStr "g1") Fixture.bakery)).
Proof.
  apply (phases_fixed_for_life
           [(Fixture.noon,
             Run.Start Fixture.bakery
               (Store.Resolved (Fixture.created "g1")) "u-1");
            (Fixture.noon, Run.Fail Fixture.server_error)]).
  reflexivity.
Defined.

Lemma apply_identity (clock : Clock) (ev : Run.Inbound) (s : GenerationSlice)
    (g : GenerationState.t) :
  currentGeneration s = Some g ->
  exists g',
    currentGeneration (Run.apply clock ev s) = Some g' /\
    GenerationState.id g' = GenerationState.id g /\
    GenerationState.startedAt g' = GenerationState.startedAt g /\
    GenerationState.businessData g' = GenerationState.businessData g /\
    Phases.ids g' = Phases.ids g.
Proof.
  intro Hcur. destruct ev as [p|result|error]; simpl.
  - unfold Store.updateProgress. rewrite Hcur. simpl.
    eexists. split; [reflexivity|]. repeat split.
    apply update_steps_ids.
  - unfold Store.completeGeneration. rewrite Hcur. simpl.
    eexists. split; [reflexivity|]. repeat split.
    apply completedGeneration_ids.
  - unfold Store.failGeneration. rewrite Hcur. simpl.
    eexists. split; [reflexivity|]. now repeat split.
Qed.

(** X15.  Inbound events never replace the tracked session: after any
    sequence of progress, completion and failure events the current
    session has the id, the start time, the business data and the phase
    ids it had before. *)
Theorem events_keep_identity
    (evs : list (Clock * Run.Inbound)) (s : GenerationSlice)
    (g : GenerationState.t) :
  currentGeneration s = Some g ->
  exists g',
    currentGeneration (Run.apply_all evs s) = Some g' /\
    GenerationState.id g' = GenerationState.id g /\
    GenerationState.startedAt g' = GenerationState.startedAt g /\
    GenerationState.businessData g' = GenerationState.businessData g /\
    Phases.ids g' = Phases.ids g.
Proof.
  revert s g. induction evs as [|[clock ev] evs IH]; simpl; intros s g Hcur.
  - exists g. now repeat split.
  - destruct (apply_identity clock ev s g Hcur)
      as (g1 & Hg1 & Hid1 & Hst1 & Hbd1 & Hids1).
    destruct (IH _ _ Hg1) as (g' & Hg' & Hid & Hst & Hbd & Hids).
    exists g'. split; [exact Hg'|]. repeat split; congruence.
Qed.

Lemma events_keep_identity_witness :
  exists g',
    currentGeneration
      (Run.apply_all [(Fixture.noon, Run.Progress Fixture.content_80);
                      (Fixture.noon, Run.Failure Fixture.server_error)]
         Fixture.started) = Some g' /\
    GenerationState.id g' = JStr "g1".
Proof.
  destruct (events_keep_identity
              [(Fixture.noon, Run.Progress Fixture.content_80);
               (Fixture.noon, Run.Failure Fixture.server_error)]
              Fixture.started
              (Store.newGeneration Fixture.noon (JStr "g1") Fixture.bakery)
              eq_refl)
    as (g' & Hg' & Hid & _).
  exists g'. split; [exact Hg'|exact Hid].
Defined.

(** X16.  Completion is not idempotent on the history: every
    [completeGeneration] on a tracked session puts one more entry at the
    head of the history, so a second completion frame leaves two entries
    with the same session id. *)
Theorem completion_duplicates_history
    (clock1 clock2 : Clock) (result1 result2 : jsval) (s : GenerationSlice)
    (current : GenerationState.t) :
  currentGeneration s = Some current ->
  let s2 :=
    Store.completeGeneration clock2 result2
      (Store.completeGeneration clock1 result1 s) in
  exists done1 done2,
    generationHistory s2 = done2 :: done1 :: generationHistory s /\
    GenerationState.id done1 = GenerationState.id current /\
    GenerationState.id done2 = GenerationState.id current /\
    GenerationState.result done1 = Some result1 /\
    GenerationState.result done2 = Some result2 /\
    currentGeneration s2 = Some done2.
Proof.
  intro Hcur. unfold Store.completeGeneration. rewrite Hcur. simpl.
  do 2 eexists. now repeat split.
Qed.

Lemma completion_duplicates_history_witness :
  List.length
    (generationHistory
       (Store.completeGeneration Fixture.noon Fixture.website
          (Store.completeGeneration Fixture.noon Fixture.website
             Fixture.started)))
  = 2%nat.
Proof.
  destruct (completion_duplicates_history Fixture.noon Fixture.noon
              Fixture.website Fixture.website Fixture.started
              (Store.newGeneration Fixture.noon (JStr "g1") Fixture.bakery)
              eq_refl)
    as (done1 & done2 & Hhist & _).
  cbv zeta in Hhist. now rewrite Hhist.
Defined.

(** X17.  [cancelGeneration] acts only on a tracked session: with one,
    the store it leaves is the store [clearCurrentGeneration] leaves;
    without one it fires no request and changes nothing, so an
    [isGenerating] flag raised by a pending [startGeneration] stays
    raised, whereas [clearCurrentGeneration] always lowers it. *)
Theorem cancel_versus_clear (s : GenerationSlice) :
  match currentGeneration s with
  | Some current =>
      Store.cancelGeneration s
      = (Store.clearCurrentGeneration s,
         [ApiDelete (GenerationState.id current)])
  | None =>
      Store.cancelGeneration s = (s, []) /\
      isGenerating
        (fst (Store.cancelGeneration (Store.startGeneration_begin s)))
      = true
  end /\
  currentGeneration (Store.clearCurrentGeneration s) = None /\
  isGenerating (Store.clearCurrentGeneration s) = false /\
  generationHistory (Store.clearCurrentGeneration s) = generationHistory s.
Proof.
  unfold Store.cancelGeneration, Store.startGeneration_begin. simpl.
  destruct (currentGeneration s); now repeat split.
Qed.

Lemma apply_all_without_session (evs : list (Clock * Run.Inbound)) :
  forall s, currentGeneration s = None -> Run.apply_all evs s = s.
Proof.
  induction evs as [|[clock ev] evs IH]; simpl; intros s Hnone;
    [reflexivity|].
  assert (Hsame : Run.apply clock ev s = s).
  { destruct ev; simpl;
      unfold Store.updateProgress, Store.completeGeneration,
        Store.failGeneration; now rewrite Hnone. }
  rewrite Hsame. now apply IH.
Qed.

(** X18.  Frames that arrive after a cancel or a clear are dropped: with
    no tracked session, no sequence of progress, completion and failure
    events changes the store, so a late frame neither revives the
    cancelled session nor reaches the history. *)
Theorem late_frames_are_dropped
    (evs : list (Clock * Run.Inbound)) (s : GenerationSlice) :
  Run.apply_all evs (fst (Store.cancelGeneration s))
    = fst (Store.cancelGeneration s) /\
  Run.apply_all evs (Store.clearCurrentGeneration s)
    = Store.clearCurrentGeneration s /\
  (currentGeneration s = None -> Run.apply_all evs s = s).
Proof.
  split; [|split].
  - unfold Store.cancelGeneration.
    destruct (currentGeneration s) eqn:E; simpl;
      now apply apply_all_without_session.
  - now apply apply_all_without_session.
  - apply apply_all_without_session.
Qed.

Lemma late_frames_are_dropped_witness :
  Run.apply_all [(Fixture.noon, Run.Completion Fixture.website)]
    Store.initial
  = Store.initial.
Proof.
  apply (late_frames_are_dropped
           [(Fixture.noon, Run.Completion Fixture.website)] Store.initial).
  reflexivity.
Defined.

Lemma step_wsConnected (clock : Clock) (op : Run.Op) (s : GenerationSlice) :
  Phases.is_setWsConnected op = false ->
  wsConnected (Run.step clock op s) = wsConnected s.
Proof.
  destruct op as [bd outcome uuid| |bd outcome uuid|p|result|error
                 |outcome| |connected];
    simpl; intro H; try discriminate; try reflexivity.
  - unfold Store.startGeneration, Store.startGeneration_resume.
    destruct outcome as [response|apiError]; [|reflexivity].
    now destruct (get response "generation_id").
  - unfold Store.startGeneration_resume.
    destruct outcome as [response|apiError]; [|reflexivity].
    now destruct (get response "generation_id").
  - apply updateProgress_frame.
  - unfold Store.completeGeneration. now destruct (currentGeneration s).
  - unfold Store.failGeneration. now destruct (currentGeneration s).
  - unfold Store.cancelGeneration_run, Store.cancelGeneration.
    destruct (currentGeneration s); [|reflexivity].
    now destruct outcome.
Qed.

(** X19.  Connectivity and session state are kept apart: no action on
    sessions (start, progress, complete, fail, cancel, clear) changes
    [wsConnected], and [setWsConnected] changes nothing but that flag, so
    losing the connection by itself never fails or clears a session. *)
Theorem connectivity_is_separate :
  (forall clock op s,
     Phases.is_setWsConnected op = false ->
     wsConnected (Run.step clock op s) = wsConnected s) /\
  (forall connected s,
     currentGeneration (Store.setWsConnected connected s)
       = currentGeneration s /\
     generationHistory (Store.setWsConnected connected s)
       = generationHistory s /\
     isGenerating (Store.setWsConnected connected s) = isGenerating s /\
     wsConnected (Store.setWsConnected connected s) = connected).
Proof.
  split; [exact step_wsConnected|now repeat split].
Qed.

Lemma connectivity_is_separate_witness :
  wsConnected
    (Run.step Fixture.noon (Run.Fail Fixture.server_error)
       (Store.setWsConnected true Fixture.started))
  = true.
Proof.
  rewrite (proj1 connectivity_is_separate Fixture.noon
             (Run.Fail Fixture.server_error)
             (Store.setWsConnected true Fixture.started) eq_refl).
  reflexivity.
Defined.

(** * The dashboard *)

Lemma firstn_Forall {A : Type} (P : A -> Prop) (l : list A) :
  forall n, Forall P l -> Forall P (firstn n l).
Proof.
  induction l as [|a l IH]; intros [|n] H; simpl; try constructor.
  - now inversion H.
  - apply IH. now inversion H.
Qed.

(** X20.  The list of recent websites on the dashboard shows at most
    five entries, never shows an entry whose Preview button is disabled
    (every history entry is [completed]), and shows a session that has
    just completed in first place. *)
Theorem recent_websites_previewable :
  (forall ops,
     let s := Run.run ops Store.initial in
     (List.length (Dashboard.recent s) <= 5)%nat /\
     Forall (fun g => Dashboard.preview_disabled g = false)
            (Dashboard.recent s)) /\
  (forall clock result s current,
     currentGeneration s = Some current ->
     hd_error (Dashboard.recent (Store.completeGeneration clock result s))
     = Some (Store.completedGeneration clock result current)).
Proof.
  split.
  - intro ops. cbv zeta. unfold Dashboard.recent. split.
    + apply firstn_le_length.
    + apply firstn_Forall.
      pose proof (run_history_completed ops Store.initial
                    (Forall_nil _)) as H.
      unfold Run.history_completed in H.
      eapply Forall_impl; [|exact H].
      intros g Hg. unfold Dashboard.preview_disabled. now rewrite Hg.
  - intros clock result s current Hcur.
    unfold Dashboard.recent, Store.completeGeneration. now rewrite Hcur.
Qed.

Lemma recent_websites_previewable_witness :
  hd_error
    (Dashboard.recent
       (Store.completeGeneration Fixture.noon Fixture.website
          Fixture.restarted))
  = Some (Store.completedGeneration Fixture.noon Fixture.website
            (Store.newGeneration Fixture.noon (JStr "g2") Fixture.bakery)).
Proof.
  apply (proj2 recent_websites_previewable). reflexivity.
Defined.

(** * The saved websites *)

Section SavedWebsites.

Import Website.

Lemma existsb_same_url (url : string) (l : list GenerationResult) :
  existsb (same_url url) l = true <-> In url (map websiteUrl l).
Proof.
  rewrite existsb_exists. split.
  - intros (w & Hin & Hw). apply String.eqb_eq in Hw. subst.
    now apply in_map.
  - intro Hin. apply in_map_iff in Hin as (w & Hw & Hin).
    exists w. split; [exact Hin|]. now apply String.eqb_eq.
Qed.

Lemma filter_urls_subset (url u : string) (l : list GenerationResult) :
  In u (map websiteUrl (filter (fun w => negb (same_url url w)) l)) ->
  In u (map websiteUrl l) /\ u <> url.
Proof.
  intro H. apply in_map_iff in H as (w & Hw & Hin).
  apply filter_In in Hin as [Hin Hkeep]. split.
  - subst. now apply in_map.
  - apply negb_true_iff in Hkeep. apply String.eqb_neq in Hkeep. now subst.
Qed.

Lemma filter_urls_NoDup (url : string) (l : list GenerationResult) :
  NoDup (map websiteUrl l) ->
  NoDup (map websiteUrl (filter (fun w => negb (same_url url w)) l)).
Proof.
  induction l as [|w l IH]; simpl; intro H; [constructor|].
  inversion H as [|? ? Hnot Hrest]; subst.
  destruct (negb (same_url url w)); simpl; [|now apply IH].
  constructor; [|now apply IH].
  intro Hin. apply Hnot. now apply filter_urls_subset in Hin.
Qed.

Lemma filter_nothing (url : string) (l : list GenerationResult) :
  ~ In url (map websiteUrl l) ->
  filter (fun w => negb (same_url url w)) l = l.
Proof.
  induction l as [|w l IH]; simpl; intro H; [reflexivity|].
  destruct (same_url url w) eqn:E; simpl.
  - exfalso. apply H. left. now apply String.eqb_eq in E.
  - f_equal. apply IH. tauto.
Qed.

Lemma act_urls_NoDup (a : Action) (st : WebsiteState) :
  NoDup (urls st) -> NoDup (urls (act a st)).
Proof.
  unfold urls. intro H. destruct a as [website|website|websiteId|pageId];
    simpl; try exact H.
  - unfold saveWebsite.
    destruct (existsb (same_url (websiteUrl website)) (savedWebsites st))
      eqn:E; simpl; [exact H|].
    rewrite map_app. simpl.
    apply NoDup_app; [exact H|repeat constructor; intros []|].
    intros u Hu [<- | []].
    apply existsb_same_url in Hu. congruence.
  - now apply filter_urls_NoDup.
Qed.

(** X21.  No two saved websites share a URL: from the empty list, any
    sequence of [setCurrentWebsite], [saveWebsite], [deleteWebsite] and
    [setCurrentPreviewPage] leaves [savedWebsites] free of duplicate
    [websiteUrl]s. *)
Theorem saved_urls_unique (l : list Action) :
  NoDup (urls (acts l initial)).
Proof.
  assert (H : forall st, NoDup (urls st) -> NoDup (urls (acts l st))).
  { unfold acts. induction l as [|a l IH]; simpl; intros st Hst;
      [exact Hst|].
    apply IH. now apply act_urls_NoDup. }
  apply H. constructor.
Qed.

(** X22.  [saveWebsite] adds a website whose URL is new at the end of
    the list and ignores one whose URL is already saved, even when its
    content differs: the saved copy is never overwritten, and saving the
    same website twice is the same as saving it once. *)
Theorem saveWebsite_keeps_first (w : GenerationResult) (st : WebsiteState) :
  (In (websiteUrl w) (urls st) -> saveWebsite w st = st) /\
  (~ In (websiteUrl w) (urls st) ->
   savedWebsites (saveWebsite w st) = savedWebsites st ++ [w]) /\
  In (websiteUrl w) (urls (saveWebsite w st)) /\
  saveWebsite w (saveWebsite w st) = saveWebsite w st /\
  currentWebsite (saveWebsite w st) = currentWebsite st /\
  currentPreviewPage (saveWebsite w st) = currentPreviewPage st.
Proof.
  assert (Hyes : In (websiteUrl w) (urls st) -> saveWebsite w st = st).
  { intro Hin. apply existsb_same_url in Hin.
    unfold saveWebsite. now rewrite Hin. }
  assert (Hin' : In (websiteUrl w) (urls (saveWebsite w st))).
  { unfold saveWebsite, urls.
    destruct (existsb (same_url (websiteUrl w)) (savedWebsites st)) eqn:E;
      simpl.
    - now apply existsb_same_url.
    - rewrite map_app. apply in_or_app. right. now left. }
  split; [exact Hyes|]. split; [|split; [exact Hin'|split]].
  - intro Hnot. unfold saveWebsite.
    destruct (existsb (same_url (websiteUrl w)) (savedWebsites st)) eqn:E;
      [|reflexivity].
    apply existsb_same_url in E. contradiction.
  - apply existsb_same_url in Hin'.
    unfold saveWebsite at 1. fold (urls (saveWebsite w st)).
    now rewrite Hin'.
  - unfold saveWebsite. now destruct (existsb _ _).
Qed.

(** X23.  [deleteWebsite] removes every saved website with the given
    URL and no other, keeps the order of the rest, and does not touch
    the current website even if it is the one deleted; deleting a
    website that has just been saved under a new URL restores the
    list. *)
Theorem deleteWebsite_removes (url : string) (st : WebsiteState) :
  ~ In url (urls (deleteWebsite url st)) /\
  (forall u, u <> url ->
     (In u (urls (deleteWebsite url st)) <-> In u (urls st))) /\
  currentWebsite (deleteWebsite url st) = currentWebsite st /\
  deleteWebsite url (deleteWebsite url st) = deleteWebsite url st /\
  (forall w,
     websiteUrl w = url -> ~ In url (urls st) ->
     deleteWebsite url (saveWebsite w st) = st).
Proof.
  split; [|split; [|split; [reflexivity|split]]].
  - intro Hin. unfold urls, deleteWebsite in Hin. simpl in Hin.
    apply filter_urls_subset in Hin. tauto.
  - intros u Hu. unfold urls, deleteWebsite. simpl. split.
    + intro Hin. now apply filter_urls_subset in Hin.
    + intro Hin. apply in_map_iff in Hin as (w & Hw & Hin).
      apply in_map_iff. exists w. split; [exact Hw|].
      apply filter_In. split; [exact Hin|].
      apply negb_true_iff. apply String.eqb_neq. now subst.
  - unfold deleteWebsite. simpl. f_equal.
    apply filter_nothing. intro Hin.
    apply filter_urls_subset in Hin. tauto.
  - intros w Hw Hnot. subst url.
    assert (E : existsb (same_url (websiteUrl w)) (savedWebsites st) = false).
    { destruct (existsb _ _) eqn:E; [|reflexivity].
      apply existsb_same_url in E. contradiction. }
    unfold saveWebsite, deleteWebsite. rewrite E. simpl.
    rewrite filter_app. simpl. unfold same_url at 2.
    rewrite String.eqb_refl. simpl. rewrite app_nil_r.
    rewrite filter_nothing by exact Hnot.
    now destruct st.
Qed.

(** X24.  [setCurrentWebsite] always resets the preview page: to the
    id of the website's first page when there is one and its id is not
    empty, and to [null] otherwise (no website, no pages, empty id); the
    page it selects is therefore always a page of the current website.
    The saved websites are not touched. *)
Theorem setCurrentWebsite_preview_page
    (website : option GenerationResult) (st : WebsiteState) :
  let st' := setCurrentWebsite website st in
  currentWebsite st' = website /\
  savedWebsites st' = savedWebsites st /\
  (website = None -> currentPreviewPage st' = None) /\
  (forall w, website = Some w -> pages w = [] ->
             currentPreviewPage st' = None) /\
  (forall w page rest,
     website = Some w -> pages w = page :: rest ->
     (WebsitePage.id page <> "" ->
      currentPreviewPage st' = Some (WebsitePage.id page)) /\
     (WebsitePage.id page = "" -> currentPreviewPage st' = None)) /\
  (forall id,
     currentPreviewPage st' = Some id ->
     id <> "" /\
     exists w page rest,
       website = Some w /\ pages w = page :: rest /\
       WebsitePage.id page = id).
Proof.
  cbv zeta. unfold setCurrentWebsite, first_page. simpl.
  split; [reflexivity|]. split; [reflexivity|].
  split; [now intros ->|]. split; [now intros w -> ->|]. split.
  - intros w page rest -> ->. split.
    + intro Hne. apply String.eqb_neq in Hne. now rewrite Hne.
    + intros ->. reflexivity.
  - intros id Hid.
    destruct website as [w|]; [|discriminate].
    destruct (pages w) as [|page rest] eqn:Hp; [discriminate|].
    destruct (String.eqb (WebsitePage.id page) "") eqn:E; [discriminate|].
    injection Hid as <-. apply String.eqb_neq in E.
    split; [exact E|]. now exists w, page, rest.
Qed.

End SavedWebsites.

Lemma saveWebsite_keeps_first_witness :
  Website.saveWebsite (Samples.site "/sites/a" [Samples.page "home"])
    (Website.saveWebsite (Samples.site "/sites/a" []) Website.initial)
  = Website.saveWebsite (Samples.site "/sites/a" []) Website.initial.
Proof.
  apply (proj1 (saveWebsite_keeps_first
                  (Samples.site "/sites/a" [Samples.page "home"])
                  (Website.saveWebsite (Samples.site "/sites/a" [])
                     Website.initial))).
  simpl. now left.
Defined.

Lemma deleteWebsite_removes_witness :
  Website.deleteWebsite "/sites/a"
    (Website.saveWebsite (Samples.site "/sites/a" []) Website.initial)
  = Website.initial.
Proof.
  apply (deleteWebsite_removes "/sites/a" Website.initial).
  - reflexivity.
  - simpl. tauto.
Defined.

Lemma setCurrentWebsite_preview_page_witness :
  Website.currentPreviewPage
    (Website.setCurrentWebsite
       (Some (Samples.site "/sites/a"
                [Samples.page "home"; Samples.page "about"]))
       (Website.setCurrentPreviewPage (Some "about") Website.initial))
  = Some "home".
Proof.
  assert (Hne : Website.WebsitePage.id (Samples.page "home") <> "")
    by discriminate.
  destruct (setCurrentWebsite_preview_page
              (Some (Samples.site "/sites/a"
                       [Samples.page "home"; Samples.page "about"]))
              (Website.setCurrentPreviewPage (Some "about") Website.initial))
    as (_ & _ & _ & _ & Hfirst & _).
  destruct (Hfirst _ (Samples.page "home") [Samples.page "about"]
              eq_refl eq_refl) as [Hsel _].
  exact (Hsel Hne).
Defined.

Example setCurrentWebsite_without_pages :
  Website.currentPreviewPage
    (Website.setCurrentWebsite (Some (Samples.site "/sites/a" []))
       (Website.setCurrentPreviewPage (Some "about") Website.initial))
  = None.
Proof. reflexivity. Qed.

(** * Preview addresses *)

Lemma prefix_append (p a b : string) :
  String.prefix p a = true -> String.prefix p (String.append a b) = true.
Proof.
  revert a. induction p as [|c p IH]; intros a H.
  - now destruct (String.append a b).
  - destruct a as [|c' a]; simpl in *; [discriminate|].
    destruct (Ascii.ascii_dec c c'); [|discriminate]. now apply IH.
Qed.

Lemma append_nonempty (a b : string) :
  String.eqb b "" = false -> String.eqb (String.append a b) "" = false.
Proof.
  intro H. destruct a; simpl; [exact H|reflexivity].
Qed.

(** X25.  With a base address that starts with "http" (the default
    does), [getFullWebsiteUrl] maps the empty address to the empty
    address and every other one to an address that starts with "http";
    an address that already starts with "http" is returned as it is, so
    applying the function twice is the same as applying it once. *)
Theorem getFullWebsiteUrl_idempotent (base relativeUrl : string) :
  Config.starts_with_http base = true ->
  let full := Config.getFullWebsiteUrl base relativeUrl in
  Config.getFullWebsiteUrl base full = full /\
  (relativeUrl = "" -> full = "") /\
  (relativeUrl <> "" -> Config.starts_with_http full = true) /\
  (Config.starts_with_http relativeUrl = true -> full = relativeUrl) /\
  Config.starts_with_http (Config.API_BASE_URL None) = true.
Proof.
  intro Hbase. cbv zeta. unfold Config.getFullWebsiteUrl.
  destruct (String.eqb relativeUrl "") eqn:Hempty.
  - apply String.eqb_eq in Hempty. subst. simpl.
    split; [reflexivity|]. split; [reflexivity|].
    split; [intro H; now elim H|]. split; reflexivity.
  - assert (Hne : relativeUrl <> "") by now apply String.eqb_neq.
    destruct (Config.starts_with_http relativeUrl) eqn:Hhttp.
    + rewrite Hempty, Hhttp.
      split; [reflexivity|]. split; [intro H; contradiction|].
      split; [reflexivity|]. split; reflexivity.
    + assert (Hfull : Config.starts_with_http
                        (String.append base relativeUrl) = true)
        by now apply prefix_append.
      rewrite (append_nonempty base relativeUrl Hempty), Hfull.
      split; [reflexivity|]. split; [intro H; contradiction|].
      split; [reflexivity|]. split; [discriminate|reflexivity].
Qed.

Lemma getFullWebsiteUrl_idempotent_witness :
  Config.getFullWebsiteUrl Config.default_base
    (Config.getFullWebsiteUrl Config.default_base "/sites/g1/index.html")
  = "http://localhost:8000/sites/g1/index.html".
Proof.
  rewrite (proj1 (getFullWebsiteUrl_idempotent Config.default_base
                    "/sites/g1/index.html" eq_refl)).
  reflexivity.
Defined.

(** * The request/response client *)

Lemma or_else_string (s : string) : or_else (JStr s) (JStr "") = JStr s.
Proof.
  unfold or_else. simpl. destruct (String.eqb s "") eqn:E; [|reflexivity].
  apply String.eqb_eq in E. now subst.
Qed.

(** X26.  The body posted to create a generation has exactly five
    string fields; a missing or empty [additionalInfo] is sent as the
    empty string, never as [undefined]; and [websitePurpose] and
    [contactInfo] are not sent at all: two inputs that differ only there
    give the same body. *)
Theorem payload_fields (businessData : BusinessData) :
  Api.payload businessData
  = JObj
      [ ("business_name", JStr (businessName businessData));
        ("business_category", JStr (businessCategory businessData));
        ("business_description", JStr (businessDescription businessData));
        ("target_audience", JStr (targetAudience businessData));
        ("additional_requirements",
         JStr (match additionalInfo businessData with
               | Some info => info
               | None => ""
               end)) ] /\
  forall other,
    businessName other = businessName businessData ->
    businessCategory other = businessCategory businessData ->
    businessDescription other = businessDescription businessData ->
    targetAudience other = targetAudience businessData ->
    additionalInfo other = additionalInfo businessData ->
    Api.payload other = Api.payload businessData.
Proof.
  split.
  - unfold Api.payload. rewrite or_else_string.
    destruct (additionalInfo businessData) as [info|].
    + now rewrite or_else_string.
    + reflexivity.
  - intros other Hn Hc Hd Ht Ha. unfold Api.payload.
    now rewrite Hn, Hc, Hd, Ht, Ha.
Qed.

Lemma payload_fields_witness :
  Api.payload
    {| businessName := "Crumb";
       businessDescription := "A bakery";
       businessCategory := "food";
       targetAudience := "locals";
       websitePurpose := "a different purpose";
       contactInfo :=
         Some {| email := Some "hi@crumb.example"; phone := None;
                 address := None |};
       additionalInfo := None |}
  = Api.payload Fixture.bakery.
Proof.
  apply (proj2 (payload_fields Fixture.bakery)); reflexivity.
Defined.

Lemma header_assign_same (k v : string) (headers : Api.Headers) :
  Api.header k (Api.assign k v headers) = Some v.
Proof.
  induction headers as [|[k' v'] rest IH]; simpl.
  - now rewrite String.eqb_refl.
  - destruct (String.eqb k k') eqn:E; simpl.
    + now rewrite String.eqb_refl.
    + now rewrite E.
Qed.

Lemma header_assign_other (k k0 v : string) (headers : Api.Headers) :
  k0 <> k ->
  Api.header k0 (Api.assign k v headers) = Api.header k0 headers.
Proof.
  intro Hne. apply String.eqb_neq in Hne.
  induction headers as [|[k' v'] rest IH]; simpl.
  - now rewrite Hne.
  - destruct (String.eqb k k') eqn:E; simpl.
    + apply String.eqb_eq in E. subst k'. now rewrite Hne.
    + now rewrite IH.
Qed.

(** X27.  Once a login or a signup has resolved, every request carries
    the header [Authorization: Bearer mock-token-12345], whatever e-mail
    and password were given, and its other headers are untouched; after
    [logout] the interceptor adds nothing. *)
Theorem bearer_follows_session
    (email password : string) (name : option string)
    (st : Auth.AuthState) (headers : Api.Headers) :
  let logged := Auth.login_resolved email password (Auth.begin st) in
  let signed := Auth.signup_resolved email password name (Auth.begin st) in
  Api.header "Authorization" (Api.on_request logged headers)
    = Some "Bearer mock-token-12345" /\
  Api.header "Authorization" (Api.on_request signed headers)
    = Some "Bearer mock-token-12345" /\
  (forall k, k <> "Authorization" ->
     Api.header k (Api.on_request logged headers) = Api.header k headers) /\
  Api.on_request (Auth.logout logged) headers = headers /\
  Auth.user (Auth.logout logged) = None /\
  Auth.isLoading logged = false.
Proof.
  cbv zeta. unfold Api.on_request. simpl.
  split; [apply header_assign_same|].
  split; [apply header_assign_same|].
  split; [|now repeat split].
  intros k Hk. now apply header_assign_other.
Qed.

Lemma bearer_follows_session_witness :
  Api.header "Content-Type"
    (Api.on_request Samples.signed_in
       [("Content-Type", "application/json")])
  = Some "application/json".
Proof.
  assert (Hne : "Content-Type" <> "Authorization") by discriminate.
  destruct (bearer_follows_session "ann@example.org" "secret" None
              Auth.initial [("Content-Type", "application/json")])
    as (_ & _ & Hother & _).
  exact (Hother "Content-Type" Hne).
Defined.

Lemma get_opt_get (v x : jsval) (k : string) :
  get v k = Some x -> opt_get v k = x.
Proof.
  destruct v; simpl; intro H; try discriminate; now injection H.
Qed.

(** X28.  A creation request answered with status 401 logs the user
    out (user and token are cleared) before [startGeneration] rejects;
    the rejection is the one of any other failure (an [Error] with the
    string form of a truthy detail, the detail itself when it is a
    string, or the generic message, or a TypeError if the detail cannot
    be converted), no session is left behind, and the requests that
    follow carry no bearer token.  A failure with any other status
    leaves the auth state as it is. *)
Theorem unauthorized_start_logs_out
    (clock : Clock) (uuid : string) (businessData : BusinessData)
    (error response : jsval) (app : Api.App) (headers : Api.Headers) :
  get error "response" = Some response ->
  let detail := opt_get (opt_get response "data") "detail" in
  let r := Api.startGeneration_failed clock uuid businessData error app in
  (truthy detail = false -> snd r = Store.Error Store.generic_text) /\
  (forall d, detail = JStr d -> d <> "" -> snd r = Store.Error [Chars d]) /\
  (truthy detail = true ->
   forall message, ToString detail = Some message ->
   snd r = Store.Error message) /\
  (truthy detail = true -> ToString detail = None ->
   snd r = Store.TypeErrorThrown) /\
  currentGeneration (Api.generation (fst r))
    = currentGeneration (Api.generation app) /\
  isGenerating (Api.generation (fst r)) = false /\
  (Api.is_401 (opt_get response "status") = true ->
   Auth.user (Api.auth (fst r)) = None /\
   Auth.token (Api.auth (fst r)) = None /\
   Api.on_request (Api.auth (fst r)) headers = headers) /\
  (Api.is_401 (opt_get response "status") = false ->
   Api.auth (fst r) = Api.auth app).
Proof.
  intro Hresp. cbv zeta.
  destruct (new_Error_cases error) as (Hfalsy & Hstr & Hconv & Hthrow).
  cbv zeta in Hfalsy, Hstr, Hconv, Hthrow.
  rewrite (get_opt_get _ _ _ Hresp) in Hfalsy, Hstr, Hconv, Hthrow.
  assert (Hsnd : snd (Api.startGeneration_failed clock uuid businessData
                        error app)
                 = Store.new_Error (Store.errorMessage error)).
  { unfold Api.startGeneration_failed, Api.on_response_error.
    rewrite Hresp. now destruct (Api.is_401 (opt_get response "status")). }
  rewrite Hsnd.
  split; [exact Hfalsy|]. split; [exact Hstr|].
  split; [exact Hconv|]. split; [exact Hthrow|].
  unfold Api.startGeneration_failed, Api.on_response_error. rewrite Hresp.
  destruct (Api.is_401 (opt_get response "status")); simpl.
  - do 2 (split; [reflexivity|]). split; [now repeat split|discriminate].
  - do 2 (split; [reflexivity|]). split; [discriminate|reflexivity].
Qed.

Lemma unauthorized_start_logs_out_witness :
  Auth.token
    (Api.auth
       (fst (Api.startGeneration_failed Fixture.noon "u-1" Fixture.bakery
               Samples.unauthorized
               {| Api.auth := Samples.signed_in;
                  Api.generation := Store.initial |})))
  = None /\
  snd (Api.startGeneration_failed Fixture.noon "u-1" Fixture.bakery
         Samples.unauthorized
         {| Api.auth := Samples.signed_in;
            Api.generation := Store.initial |})
  = Store.Error [Chars "Not authenticated"].
Proof.
  assert (Hd : "Not authenticated" <> "") by discriminate.
  destruct (unauthorized_start_logs_out Fixture.noon "u-1" Fixture.bakery
              Samples.unauthorized
              (JObj [("status", JNum 401%float);
                     ("data", JObj [("detail", JStr "Not authenticated")])])
              {| Api.auth := Samples.signed_in;
                 Api.generation := Store.initial |}
              [] eq_refl)
    as (_ & Hstr & _ & _ & _ & _ & Hout & _).
  destruct (Hout eq_refl) as (_ & Htoken & _).
  split; [exact Htoken|]. exact (Hstr "Not authenticated" eq_refl Hd).
Defined.

(** * The wizard *)

Section WizardSteps.

Import Wizard.
Local Open Scope nat_scope.

Lemma act_step (a : (list string -> bool) * Action) (st : State) :
  on_screen a = true ->
  currentStep st <= 4 ->
  currentStep (fst (act a st)) <= 4 /\
  currentStep (fst (act a st)) <= currentStep st + 1.
Proof.
  destruct a as [trigger [throws| |stepIndex]]; simpl; intros Hon Hst.
  - unfold handleNext.
    destruct (isStepValid trigger (currentStep st)); [|simpl; lia].
    change (List.length steps - 1) with 4.
    destruct (currentStep st <? 4) eqn:E; simpl; [|lia].
    apply Nat.ltb_lt in E. lia.
  - unfold handlePrevious.
    destruct (0 <? currentStep st); simpl; lia.
  - unfold on_screen in Hon. simpl in Hon. apply Nat.ltb_lt in Hon.
    unfold handleStepClick.
    destruct ((stepIndex <? currentStep st)
              || (stepIndex =? currentStep st + 1)
                 && isStepValid trigger (currentStep st)) eqn:E;
      simpl; [|lia].
    split; [lia|].
    apply orb_true_iff in E as [E|E].
    + apply Nat.ltb_lt in E. lia.
    + apply andb_true_iff in E as [E _]. apply Nat.eqb_eq in E. lia.
Qed.

(** X29.  The wizard never leaves its five steps: starting on one of
    them, any sequence of Next, Previous and clicks on the step bar
    leaves [currentStep] between 0 and 4, so [steps[currentStep]] is
    always defined. *)
Theorem wizard_stays_on_its_steps
    (l : list ((list string -> bool) * Action)) (st : State) :
  forallb on_screen l = true ->
  currentStep st <= 4 ->
  currentStep (fst (acts l st)) <= 4.
Proof.
  revert st. induction l as [|a l IH]; simpl; intros st Hon Hst;
    [exact Hst|].
  apply andb_true_iff in Hon as [Ha Hl].
  destruct (act_step a st Ha Hst) as [H1 _].
  destruct (act a st) as [st1 t1]. simpl in H1.
  specialize (IH st1 Hl H1).
  destruct (acts l st1) as [st2 t2]. exact IH.
Qed.

(** X30.  A step whose required fields are invalid cannot be passed:
    neither Next nor a click on the step bar moves the wizard beyond it,
    and nothing is submitted.  No action moves more than one step
    forward.  The form is submitted exactly by Next on the review step,
    where no validation can hold it back. *)
Theorem wizard_gates_progress
    (trigger : list string -> bool) (a : Action) (st : State) :
  currentStep st <= 4 ->
  let r := act (trigger, a) st in
  (isStepValid trigger (currentStep st) = false ->
   currentStep (fst r) <= currentStep st /\ ~ In Submitted (snd r)) /\
  (In Submitted (snd r) <->
   currentStep st = 4 /\ exists throws, a = Next throws) /\
  (currentStep (fst r) <= currentStep st \/
   currentStep (fst r) = currentStep st + 1).
Proof.
  intro Hst. cbv zeta. destruct a as [throws| |stepIndex]; simpl.
  - unfold handleNext.
    change (List.length steps - 1) with 4.
    destruct (isStepValid trigger (currentStep st)) eqn:Hvalid.
    + destruct (currentStep st <? 4) eqn:E; simpl.
      * apply Nat.ltb_lt in E. split; [discriminate|]. split; [|now right].
        split; [contradiction|]. intros [H4 _]. lia.
      * apply Nat.ltb_ge in E. split; [discriminate|]. split; [|now left].
        split; [intros _; split; [lia|now exists throws]|].
        intros _. destruct throws; now left.
    + simpl. split.
      * intros _. split; [lia|]. intros [H|[]]. discriminate H.
      * split; [|now left]. split.
        -- intros [H|[]]. discriminate H.
        -- intros [H4 _]. rewrite H4 in Hvalid. discriminate Hvalid.
  - unfold handlePrevious. split; [|split].
    + intros _. split; [|tauto]. destruct (0 <? currentStep st); simpl; lia.
    + split; [contradiction|]. intros [_ [throws H]]. discriminate H.
    + left. destruct (0 <? currentStep st); simpl; lia.
  - unfold handleStepClick. split; [|split].
    + intro Hinvalid. rewrite Hinvalid, andb_false_r, orb_false_r.
      split; [|tauto].
      destruct (stepIndex <? currentStep st) eqn:E; simpl; [|lia].
      apply Nat.ltb_lt in E. lia.
    + split; [contradiction|]. intros [_ [throws H]]. discriminate H.
    + destruct ((stepIndex <? currentStep st)
                || (stepIndex =? currentStep st + 1)
                   && isStepValid trigger (currentStep st)) eqn:E;
        simpl; [|left; lia].
      apply orb_true_iff in E as [E|E].
      * apply Nat.ltb_lt in E. left. lia.
      * apply andb_true_iff in E as [E _]. apply Nat.eqb_eq in E. now right.
Qed.

End WizardSteps.

Lemma wizard_stays_on_its_steps_witness :
  (Wizard.currentStep
     (fst (Wizard.acts
             [(Samples.always true, Wizard.Next false);
              (Samples.always true, Wizard.Click 2);
              (Samples.always false, Wizard.Next false);
              (Samples.always true, Wizard.Previous)]
             Wizard.initial))
   <= 4)%nat.
Proof.
  apply (wizard_stays_on_its_steps
           [(Samples.always true, Wizard.Next false);
            (Samples.always true, Wizard.Click 2);
            (Samples.always false, Wizard.Next false);
            (Samples.always true, Wizard.Previous)]
           Wizard.initial eq_refl).
  simpl. lia.
Defined.

Lemma wizard_gates_progress_witness :
  (Wizard.currentStep
     (fst (Wizard.act (Samples.always false, Wizard.Click 1)
             Wizard.initial))
   <= 0)%nat.
Proof.
  assert (H0 : (Wizard.currentStep Wizard.initial <= 4)%nat)
    by (simpl; lia).
  destruct (wizard_gates_progress (Samples.always false) (Wizard.Click 1)
              Wizard.initial H0) as [Hgate _].
  destruct (Hgate eq_refl) as [Hle _]. exact Hle.
Defined.
